(** * YouTube MCP server bootstrap: path resolution, cache purge, CLI glue

    A shallow embedding of [src/modules/mcp_servers/mcp_yt_server.py] and
    [src/debug_stub.py], and the properties of them that the specification
    states.

    Modelling conventions.
    - Paths are POSIX [pathlib] paths: an anchor and a list of components.
    - [Path.resolve()] is what the operating system makes of a path: a
      function of the environment, which may raise; the properties that use
      it assume of it only what holds on every filesystem.
    - Timestamps ([time.time()], [st_mtime]) are exact rationals, and the
      subtraction that computes the cutoff is exact; the properties that
      depend on the value of the cutoff are stated where the binary64
      subtraction of the code is exact too.
    - Text is ASCII text; [int] and [str.lower] are not modelled beyond it.
    - Python exceptions are values of [exn]; code that may raise returns a
      [result]; code that also touches the filesystem or the log runs in the
      state-and-exception monad [M]. *)

From Stdlib Require Import ZArith QArith Lia Lqa Ascii String.
From Stdlib Require Import DecimalString DecimalPos DecimalZ.
From stdpp Require Import base decidable option list strings gmap fin_maps.

Close Scope Q_scope.
Open Scope Z_scope.
Open Scope string_scope.
Open Scope list_scope.

(** ** Exceptions and results *)

(** The [OSError] subclasses the code can meet. *)
Inductive errno :=
| ENOENT     (* FileNotFoundError *)
| ENOTDIR    (* NotADirectoryError *)
| EACCES.    (* PermissionError *)

(** The two messages of [port_type]. *)
Inductive port_message :=
| NotAnInteger (value : string)
| OutOfRange (port : Z).

Inductive exn :=
| IndexError
| RuntimeError
| ValueError
| OSError (code : errno)
| ArgumentTypeError (msg : port_message)
| SystemExit (status : Z).

Inductive result (A : Type) :=
| Ok (a : A)
| Raise (e : exn).
Arguments Ok {A} a.
Arguments Raise {A} e.

Definition rbind {A B} (r : result A) (k : A → result B) : result B :=
  match r with
  | Ok a => k a
  | Raise e => Raise e
  end.

Definition rmap {A B} (f : A → B) (r : result A) : result B :=
  rbind r (λ a, Ok (f a)).

Notation "'let*' x := r 'in' k" := (rbind r (λ x, k))
  (at level 10, x binder, r at level 100, k at level 200).

(** ** POSIX paths *)

Module PosixPath.

(** The anchor of a path: none, ["/"], or exactly two leading slashes. *)
Inductive anchor := Relative | Root | DoubleRoot.

Record Path := mkPath { root : anchor; parts : list string }.

#[export] Instance anchor_eq_dec : EqDecision anchor.
Proof. solve_decision. Defined.

#[export] Instance Path_eq_dec : EqDecision Path.
Proof. solve_decision. Defined.

#[export] Instance anchor_countable : Countable anchor :=
  inj_countable'
    (λ a, match a with Relative => 0 | Root => 1 | DoubleRoot => 2 end)%nat
    (λ n, match n with 0 => Relative | 1 => Root | _ => DoubleRoot end)%nat
    (λ a, match a with Relative | Root | DoubleRoot => eq_refl end).

#[export] Instance Path_countable : Countable Path :=
  inj_countable'
    (λ p, (root p, parts p)) (λ ap, mkPath ap.1 ap.2)
    (λ p, match p with mkPath _ _ => eq_refl end).

Definition is_absolute (p : Path) : bool :=
  match root p with
  | Relative => false
  | _ => true
  end.

(** [str.split("/")] *)
Fixpoint split_sep (s : string) : list string :=
  match s with
  | EmptyString => [""]
  | String c s' =>
      if Ascii.eqb c "/"%char then "" :: split_sep s'
      else match split_sep s' with
           | w :: ws => String c w :: ws
           | [] => [String c ""]
           end
  end.

(** [posixpath.splitroot] *)
Definition splitroot (s : string) : anchor * string :=
  match s with
  | String "/"%char (String "/"%char (String "/"%char r)) =>
      (Root, String "/"%char (String "/"%char r))
  | String "/"%char (String "/"%char r) => (DoubleRoot, r)
  | String "/"%char r => (Root, r)
  | _ => (Relative, s)
  end.

Definition kept_component (x : string) : bool :=
  negb (String.eqb x "") && negb (String.eqb x ".").

(** [Path(s)]: empty and [.] components are dropped, [..] is kept. *)
Definition of_string (s : string) : Path :=
  let '(a, rel) := splitroot s in
  mkPath a (filter (λ x, Is_true (kept_component x)) (split_sep rel)).

(** [p / s] *)
Definition joinpath (p : Path) (s : string) : Path :=
  let q := of_string s in
  if is_absolute q then q else mkPath (root p) (parts p ++ parts q).

(** The entry [name] of directory [p], as [iterdir] builds it. *)
Definition child (p : Path) (name : string) : Path :=
  mkPath (root p) (parts p ++ [name]).

(** [p.name] *)
Definition name (p : Path) : string := List.last (parts p) "".

(** [p.parent]: total, the anchor is its own parent. *)
Definition parent (p : Path) : Path :=
  mkPath (root p) (take (length (parts p) - 1)%nat (parts p)).

(** [p.parents[i]] for [i >= 0]: raises [IndexError] when the path has
    no more than [i] components. *)
Definition parents (p : Path) (i : nat) : result Path :=
  let n := length (parts p) in
  if decide (i < n)%nat
  then Ok (mkPath (root p) (take (n - S i)%nat (parts p)))
  else Raise IndexError.

Definition starts_with_tilde (s : string) : bool :=
  match s with
  | String "~"%char _ => true
  | _ => false
  end.

(** [p.expanduser()]. [os_expanduser] is [os.path.expanduser] on the first
    component ([~] or [~user]); it returns its argument unchanged when no
    home directory is known, which [pathlib] turns into [RuntimeError]. *)
Definition expanduser (os_expanduser : string → string) (p : Path) : result Path :=
  match root p, parts p with
  | Relative, first :: rest =>
      if starts_with_tilde first then
        let homedir := os_expanduser first in
        if starts_with_tilde homedir then Raise RuntimeError
        else
          let h := of_string homedir in
          Ok (mkPath (root h) (parts h ++ rest))
      else Ok p
  | _, _ => Ok p
  end.

(** [p.absolute()] against the working directory [/cwd]. *)
Definition absolute (cwd : list string) (p : Path) : Path :=
  match root p with
  | Relative => mkPath Root (cwd ++ parts p)
  | _ => p
  end.

(** Folding [..] away: the stack holds the components kept so far, last
    first; [..] at the anchor stays at the anchor. *)
Fixpoint normparts (stack : list string) (ps : list string) : list string :=
  match ps with
  | [] => rev stack
  | c :: r =>
      if String.eqb c ".." then normparts (tail stack) r
      else normparts (c :: stack) r
  end.

(** [p.resolve()] (non-strict) on a filesystem that has no symbolic link
    and whose working directory [/cwd] exists: the path is made absolute,
    [..] is folded away, and the result is anchored at a single slash. *)
Definition lexical_realpath (cwd : list string) (p : Path) : result Path :=
  Ok (mkPath Root (normparts [] (parts (absolute cwd p)))).

Definition no_dotdot (ps : list string) : bool :=
  forallb (λ c, negb (String.eqb c "..")) ps.

(** Anchored at a single slash, and without [..]. *)
Definition is_resolved (p : Path) : bool :=
  match root p with
  | Root => no_dotdot (parts p)
  | _ => false
  end.

(** What holds of [Path.resolve()] on every filesystem: what it returns
    is anchored at a single slash and has no [..]; and the parent of a path
    it returns resolves to itself. *)
Record realpath_laws (rp : Path → result Path) : Prop := {
  rp_resolved : ∀ p q, rp p = Ok q → is_resolved q = true;
  rp_parent : ∀ p q, rp p = Ok q → rp (parent q) = Ok (parent q);
}.

End PosixPath.
Import PosixPath.

Notation "p // s" := (joinpath p s) (at level 40, left associativity).

(** ** The process environment *)

(** [realpath] is [Path.resolve()] as the operating system performs it:
    it follows symbolic links and makes the path absolute against the
    working directory, and it raises what the call raises ([RuntimeError]
    on a loop of links, [OSError] when the working directory is gone). *)
Record os_env := mkEnv {
  environ : gmap string string;       (* os.environ *)
  realpath : Path → result Path;      (* Path.resolve() *)
  module_file : Path;                 (* Path(__file__) of the server module *)
  os_expanduser : string → string;    (* os.path.expanduser on ~ or ~user *)
}.

(** ** Path resolver *)

Record ServerPaths := mkServerPaths {
  modules_dir : Path;
  tools_dir : Path;
  prompts_dir : Path;
  resources_dir : Path;
  project_dir : Path;
  cache_dir : Path;
}.

(** Truthiness of [os.environ.get(...)]: [None] and [""] are falsy. *)
Definition truthy (o : option string) : bool :=
  match o with
  | Some s => negb (String.eqb s "")
  | None => false
  end.

Definition resolve_cache_dir (E : os_env) (project_dir : Path) : result Path :=
  let override := environ E !! "MCP_CACHE_DIR" in
  if truthy override then
    let* p := expanduser (os_expanduser E) (of_string (default "" override)) in
    realpath E p
  else realpath E (project_dir // "Cache").

Definition resolve_paths (E : os_env) (this_file : Path) : result ServerPaths :=
  let* gp := parents this_file 1 in
  let* modules_dir := realpath E gp in
  let* tools_dir := realpath E (modules_dir // "tools") in
  let* prompts_dir := realpath E (modules_dir // "prompts") in
  let* resources_dir := realpath E (modules_dir // "resources") in
  let* pr := parents modules_dir 1 in
  let* project_dir := realpath E pr in
  let* cache_dir := resolve_cache_dir E project_dir in
  Ok (mkServerPaths modules_dir tools_dir prompts_dir resources_dir
        project_dir cache_dir).

(** ** Port validation *)

Module PyInt.

(** ASCII white space: tab, line feed, vertical tab, form feed, carriage
    return, space. *)
Definition is_space (c : ascii) : bool :=
  let n := nat_of_ascii c in
  ((9 <=? n) && (n <=? 13) || (n =? 32))%nat.

Definition digit_val (c : ascii) : option Z :=
  let n := nat_of_ascii c in
  if ((48 <=? n) && (n <=? 57))%nat then Some (Z.of_nat n - 48) else None.

Fixpoint lstrip (cs : list ascii) : list ascii :=
  match cs with
  | c :: r => if is_space c then lstrip r else cs
  | [] => []
  end.

Definition strip (cs : list ascii) : list ascii :=
  rev (lstrip (rev (lstrip cs))).

(** Decimal digits, with single underscores allowed between digits. *)
Fixpoint parse_digits (acc : Z) (after_digit : bool) (cs : list ascii) : option Z :=
  match cs with
  | [] => if after_digit then Some acc else None
  | c :: r =>
      match digit_val c with
      | Some d => parse_digits (10 * acc + d) true r
      | None =>
          if Ascii.eqb c "_"%char && after_digit then parse_digits acc false r
          else None
      end
  end.

(** The interpreter's default limit on the digits of a decimal literal. *)
Definition max_str_digits : nat := 4300.

Definition count_digits (cs : list ascii) : nat :=
  List.length
    (List.filter (λ c, match digit_val c with Some _ => true | None => false end) cs).

(** [int(value)], base 10, on ASCII text: optional white space, an
    optional sign, digits, no more than [max_str_digits] of them. Text
    with characters outside ASCII is not modelled ([int] also takes the
    decimal digits and the white space of Unicode). *)
Definition int (value : string) : result Z :=
  let cs := strip (list_ascii_of_string value) in
  let '(sign, ds) :=
    match cs with
    | "+"%char :: r => (1, r)
    | "-"%char :: r => (-1, r)
    | _ => (1, cs)
    end in
  match parse_digits 0 false ds with
  | Some n =>
      if (max_str_digits <? count_digits ds)%nat then Raise ValueError
      else Ok (sign * n)
  | None => Raise ValueError
  end.

(** Text the model covers: every character is ASCII. *)
Definition ascii_text (value : string) : Prop :=
  ∀ c, c ∈ list_ascii_of_string value → (nat_of_ascii c < 128)%nat.

(** The characters a decimal literal may be made of: digits, the
    underscore, a sign, the white space around it; and any character
    outside ASCII, since [int] also takes Unicode digits and spaces. *)
Definition literal_char (c : ascii) : bool :=
  match digit_val c with Some _ => true | None => false end
  || Ascii.eqb c "_"%char || Ascii.eqb c "+"%char || Ascii.eqb c "-"%char
  || is_space c || (128 <=? nat_of_ascii c)%nat.

End PyInt.

(** [str(n)] for an integer: its decimal digits, after a minus sign when
    it is negative. *)
Definition py_str (n : Z) : string := NilZero.string_of_int (Z.to_int n).

(** The characters [str] writes for the digits of a number, and what
    they all are: no white space and no sign. *)
Definition uint_chars (u : Decimal.uint) : list ascii :=
  list_ascii_of_string (NilEmpty.string_of_uint u).

Definition decimal_char (c : ascii) : Prop :=
  PyInt.is_space c = false ∧ Ascii.eqb c "+"%char = false
  ∧ Ascii.eqb c "-"%char = false.

Definition port_type (value : string) : result Z :=
  let* port :=
    match PyInt.int value with
    | Raise ValueError => Raise (ArgumentTypeError (NotAnInteger value))
    | r => r
    end in
  if negb ((1 <=? port)%Z && (port <=? 65535)%Z)
  then Raise (ArgumentTypeError (OutOfRange port))
  else Ok port.

(** ** The filesystem under the cache root, and the monad of effects *)

Inductive ftype :=
| Regular        (* is_file() holds *)
| NotRegular.    (* a directory, a FIFO, a dangling link, ... *)

(** A directory entry. [stat_fails]: [stat()] on it raises [OSError];
    [unlink_fails]: [unlink()] on it raises [OSError]. *)
Record dirent := mkDirent {
  kind : ftype;
  st_mtime : Q;
  stat_fails : bool;
  unlink_fails : bool;
}.

(** What sits at a path: a directory that can be listed; something that
    is not a directory; a directory that may not be read, whose listing
    raises [PermissionError]; or a path below a directory that may not be
    searched, on which [exists()] itself raises [PermissionError]. What the
    last two hold is out of the reach of the code and not modelled. *)
Inductive fsnode :=
| Directory (entries : gmap string dirent)
| NotADirectory
| Unreadable
| Unreachable.

(** Calls into the external collaborators, in the order they are made. *)
Inductive call :=
| RegisterTools (package : Path)
| RegisterPromptsFromMarkdown (prompts_dir : Path)
| RegisterPrompts (prompts_dir : Path)
| Run (transport host : string) (port : Z).

Record world := mkWorld {
  fs : gmap Path fsnode;     (* the directories, by path *)
  clock : Q;                 (* what time.time() returns *)
  logged : list Path;        (* logger.exception(..., path) *)
  calls : list call;
}.

Definition M (A : Type) : Type := world → result A * world.

Definition ret {A} (a : A) : M A := λ w, (Ok a, w).

Definition bind {A B} (m : M A) (k : A → M B) : M B := λ w,
  match m w with
  | (Ok a, w') => k a w'
  | (Raise e, w') => (Raise e, w')
  end.

Definition lift {A} (r : result A) : M A := λ w, (r, w).

Notation "'do' x <- m ; k" := (bind m (λ x, k))
  (at level 10, x binder, m at level 100, k at level 200).

(** [try: body except OSError: handler] *)
Definition try_except_OSError {A} (body handler : M A) : M A := λ w,
  match body w with
  | (Raise (OSError _), w') => handler w'
  | r => r
  end.

(** [for x in xs: body(x)] *)
Fixpoint for_each {A} (xs : list A) (body : A → M unit) : M unit :=
  match xs with
  | [] => ret tt
  | x :: r => do _ <- body x; for_each r body
  end.

Definition set_fs (f : gmap Path fsnode) (w : world) : world :=
  mkWorld f (clock w) (logged w) (calls w).

(** The entry a path names, if its parent is a directory holding it. *)
Definition lookup_entry (w : world) (path : Path) : option dirent :=
  match fs w !! parent path with
  | Some (Directory es) => es !! name path
  | _ => None
  end.

Definition time_time : M Q := λ w, (Ok (clock w), w).

(** [d.exists()] *)
Definition path_exists (d : Path) : M bool := λ w,
  match fs w !! d with
  | Some Unreachable => (Raise (OSError EACCES), w)
  | Some _ => (Ok true, w)
  | None => (Ok false, w)
  end.

(** [d.iterdir()]: the entries, in some order (the properties below hold
    for every order). *)
Definition iterdir (d : Path) : M (list Path) := λ w,
  match fs w !! d with
  | Some (Directory es) => (Ok (child d <$> (map_to_list es).*1), w)
  | Some NotADirectory => (Raise (OSError ENOTDIR), w)
  | Some Unreadable | Some Unreachable => (Raise (OSError EACCES), w)
  | None => (Raise (OSError ENOENT), w)
  end.

(** [path.is_file()]: a missing entry is not a file; other [stat]
    failures propagate. *)
Definition is_file (path : Path) : M bool := λ w,
  match lookup_entry w path with
  | None => (Ok false, w)
  | Some e =>
      if stat_fails e then (Raise (OSError EACCES), w)
      else (Ok (match kind e with Regular => true | NotRegular => false end), w)
  end.

(** [path.stat().st_mtime] *)
Definition stat_st_mtime (path : Path) : M Q := λ w,
  match lookup_entry w path with
  | None => (Raise (OSError ENOENT), w)
  | Some e =>
      if stat_fails e then (Raise (OSError EACCES), w)
      else (Ok (st_mtime e), w)
  end.

(** [path.unlink(missing_ok=True)] *)
Definition unlink (path : Path) : M unit := λ w,
  match fs w !! parent path with
  | Some (Directory es) =>
      match es !! name path with
      | None => (Ok tt, w)
      | Some e =>
          if unlink_fails e then (Raise (OSError EACCES), w)
          else (Ok tt, set_fs (<[parent path := Directory (delete (name path) es)]> (fs w)) w)
      end
  | Some NotADirectory => (Raise (OSError ENOTDIR), w)
  | Some Unreadable | Some Unreachable => (Raise (OSError EACCES), w)
  | None => (Ok tt, w)
  end.

(** [logger.exception("Failed purging cache file: %s", path)] *)
Definition logger_exception (path : Path) : M unit := λ w,
  (Ok tt, mkWorld (fs w) (clock w) (logged w ++ [path]) (calls w)).

Definition external (c : call) : M unit := λ w,
  (Ok tt, mkWorld (fs w) (clock w) (logged w) (calls w ++ [c])).

(** ** Cache purger *)

Definition Qltb (x y : Q) : bool := negb (Qle_bool y x).

Definition cutoff_of (now : Q) (days : Z) : Q :=
  (now - inject_Z (days * 86400))%Q.

(** The body of the inner loop: the [try] statement for one entry. *)
Definition purge_cache_file (cutoff : Q) (path : Path) : M unit :=
  try_except_OSError
    (do regular <- is_file path;
     if regular then
       do mtime <- stat_st_mtime path;
       if Qltb mtime cutoff then unlink path else ret tt
     else ret tt)
    (logger_exception path).

(** The body of the outer loop, for one subdirectory name. *)
Definition purge_cache_dir (cutoff : Q) (cache_dir : Path) (rel : string) : M unit :=
  let d := cache_dir // rel in
  do found <- path_exists d;
  if negb found then ret tt
  else
    do paths <- iterdir d;
    for_each paths (purge_cache_file cutoff).

Definition purge_cache (cache_dir : Path) (days : Z) : M unit :=
  do now <- time_time;
  let cutoff := cutoff_of now days in
  for_each ["audio"; "transcripts"] (purge_cache_dir cutoff cache_dir).

(** What the inner loop does to one entry [e]: it is unlinked when its
    [stat] succeeds, it is a regular file older than the cutoff, and the
    [unlink] succeeds. *)
Definition unlinked (cutoff : Q) (e : dirent) : bool :=
  negb (stat_fails e)
  && match kind e with Regular => true | NotRegular => false end
  && Qltb (st_mtime e) cutoff
  && negb (unlink_fails e).

(** ... and the [try] body raises [OSError] on it, which is logged, when
    its [stat] fails, or it is a regular file older than the cutoff whose
    [unlink] fails. *)
Definition raises (cutoff : Q) (e : dirent) : bool :=
  stat_fails e
  || match kind e with Regular => true | NotRegular => false end
     && Qltb (st_mtime e) cutoff
     && unlink_fails e.

(** Closed forms of the two loops, on the map of directories: the entries
    of a directory that are left, and the directory [d] after its loop. *)
Definition survivors (cutoff : Q) (es : gmap string dirent) : gmap string dirent :=
  filter (λ ne, unlinked cutoff ne.2 = false) es.

Definition purged_dir (cutoff : Q) (d : Path) (f : gmap Path fsnode) : gmap Path fsnode :=
  match f !! d with
  | Some (Directory es) => <[d := Directory (survivors cutoff es)]> f
  | _ => f
  end.

(** The [OSError] that [d.exists()] or [d.iterdir()] raises, outside the
    [try] statement: none when [d] is absent or a directory that can be
    listed. *)
Definition listing_error (f : gmap Path fsnode) (d : Path) : option errno :=
  match f !! d with
  | Some NotADirectory => Some ENOTDIR
  | Some Unreadable | Some Unreachable => Some EACCES
  | Some (Directory _) | None => None
  end.

(** Where the arithmetic of the model is that of the code. The code
    computes the cutoff in binary64: the integer [days * 86400] is
    converted, which raises [OverflowError] from about [2^1024] on, and
    the subtraction is rounded. *)
Definition no_overflow (days : Z) : Prop :=
  (Z.abs (days * 86400) < 2 ^ 1023)%Z.

(** For a window that reaches back no further before the epoch than the
    clock stands after it, with a clock below [2^52], the conversion and
    the subtraction are exact: the difference is a multiple of the unit
    in the last place of the clock and no larger than the clock. *)
Definition exact_window (now : Q) (days : Z) : Prop :=
  (0 ≤ days)%Z
  ∧ (inject_Z (days * 86400) <= 2 * now)%Q
  ∧ (now < inject_Z (2 ^ 52))%Q.

(** ** Server bootstrap and CLI entry point *)

Definition attach_everything (paths : ServerPaths) : M unit :=
  do _ <- external (RegisterTools (tools_dir paths));
  do _ <- external (RegisterPromptsFromMarkdown (prompts_dir paths));
  external (RegisterPrompts (prompts_dir paths)).

(** [create_server()] builds the server object from constants and the
    [logger.info] lines carry no state: neither is modelled. *)
Definition launch_server (E : os_env) (host : string) (port : Z)
    (purge_days : option Z) : M unit :=
  do paths <- lift (resolve_paths E (module_file E));
  do _ <- match purge_days with
          | Some days => purge_cache (cache_dir paths) days
          | None => ret tt
          end;
  do _ <- attach_everything paths;
  external (Run "http" host port).

(** The namespace [parse_args] returns. *)
Record Namespace := mkNamespace {
  host : string;
  port : Z;
  purge_cache_days : Z;
}.

(** The command line of the server, as the options given, each with the
    text of its value. *)
Inductive cli_arg :=
| ArgHost (value : string)               (* --host value *)
| ArgPort (value : string)               (* --port value *)
| ArgPurgeCacheDays (value : string).    (* --purge-cache-days value *)

Definition cli_value (a : cli_arg) : string :=
  match a with
  | ArgHost value | ArgPort value | ArgPurgeCacheDays value => value
  end.

Fixpoint all_digits (s : string) : bool :=
  match s with
  | EmptyString => true
  | String c r =>
      match PyInt.digit_val c with Some _ => all_digits r | None => false end
  end.

(** A value [argparse] takes as the argument of the option before it: one
    that does not start with a hyphen, or a hyphen followed by digits
    only, which it reads as a negative number. Other values that start
    with a hyphen it may read as options. *)
Definition plain_value (value : string) : bool :=
  match value with
  | String "-"%char (String c r) => all_digits (String c r)
  | String "-"%char EmptyString => true
  | _ => true
  end.

Definition defaults : Namespace := mkNamespace "127.0.0.1" 8085 7.

(** [argparse] reports an [ArgumentTypeError] or a [ValueError] of a
    [type] function as a usage error: it prints the usage and the message
    and exits with status 2. *)
Definition convert {A} (r : result A) : result A :=
  match r with
  | Raise (ArgumentTypeError _) | Raise ValueError => Raise (SystemExit 2)
  | r => r
  end.

(** The parser's loop over a command line of option and value pairs,
    left to right: each value is converted by the option's [type] and
    stored, a later occurrence replacing an earlier one. The values are
    taken as [argparse] takes a [plain_value]; command lines with [-h], an
    unknown option or an option without its value are not of this form
    (on them [argparse] exits, with status 0 for [-h] and 2 otherwise). *)
Fixpoint parse_into (ns : Namespace) (argv : list cli_arg) : result Namespace :=
  match argv with
  | [] => Ok ns
  | ArgHost value :: rest =>
      parse_into (mkNamespace value (port ns) (purge_cache_days ns)) rest
  | ArgPort value :: rest =>
      let* p := convert (port_type value) in
      parse_into (mkNamespace (host ns) p (purge_cache_days ns)) rest
  | ArgPurgeCacheDays value :: rest =>
      let* d := convert (PyInt.int value) in
      parse_into (mkNamespace (host ns) (port ns) d) rest
  end.

(** [build_parser().parse_args(argv)] *)
Definition parse_args (argv : list cli_arg) : result Namespace :=
  parse_into defaults argv.

Definition main (E : os_env) (argv : list cli_arg) : M unit :=
  do args <- lift (parse_args argv);
  let purge_days :=
    if (purge_cache_days args <? 0)%Z then None
    else Some (purge_cache_days args) in
  launch_server E (host args) (port args) purge_days.

(** ** Debug stub *)

Module DebugStub.

(** The command lines considered: no argument at all, or [--test value].
    Others ([-h], which prints the help and exits with status 0; unknown
    options, which exit with status 2) never reach the stub's own code. *)
Inductive command_line :=
| NoArguments
| TestOption (value : string).

Definition sys_argv (c : command_line) : list string :=
  match c with
  | NoArguments => ["debug_stub.py"]
  | TestOption value => ["debug_stub.py"; "--test"; value]
  end.

Inductive routine := ServerMain | ClientRun | SearchTest.

Inductive printed := UsageAndError | Help.

Inductive outcome :=
| Exited (status : Z) (out : printed)     (* SystemExit *)
| Called (r : routine)
| Returned.                (* no case of the match applied *)

Definition lower_ascii (c : ascii) : ascii :=
  let n := nat_of_ascii c in
  if ((65 <=? n) && (n <=? 90))%nat then ascii_of_nat (n + 32) else c.

(** [str.lower], on ASCII text *)
Fixpoint str_lower (s : string) : string :=
  match s with
  | EmptyString => EmptyString
  | String c r => String (lower_ascii c) (str_lower r)
  end.

Definition choices : list string :=
  ["mcp_yt-server"; "universal-client"; "yt-search"].

(** [parser.parse_args()]: [--test] is required, converted with
    [str.lower], and checked against [choices]; a failure prints the
    usage with an error message and exits with status 2. *)
Definition parse_args (c : command_line) : outcome + string :=
  match c with
  | NoArguments => inl (Exited 2 UsageAndError)
  | TestOption value =>
      let test := str_lower value in
      if bool_decide (test ∈ choices) then inr test
      else inl (Exited 2 UsageAndError)
  end.

Definition debug_stub (c : command_line) : outcome :=
  match parse_args c with
  | inl exit => exit
  | inr test =>
      if (length (sys_argv c) =? 1)%nat then Exited 1 Help
      else if String.eqb test "mcp-yt-server" then Called ServerMain
      else if String.eqb test "universal-client" then Called ClientRun
      else if String.eqb test "yt-search" then Called SearchTest
      else Returned
  end.

End DebugStub.

(** ** Concrete scenarios *)

Module Scenario.

(** The module installed under [/srv/app], user [u] with home [/home/u]. *)
Definition home_of (s : string) : string :=
  if String.eqb s "~" then "/home/u" else s.

Definition installed : Path :=
  of_string "/srv/app/src/modules/mcp_servers/mcp_yt_server.py".

(** No symbolic links, working directory [/srv/app]. *)
Definition env_unset : os_env :=
  mkEnv ∅ (lexical_realpath ["srv"; "app"]) installed home_of.

Definition env_override : os_env :=
  mkEnv {[ "MCP_CACHE_DIR" := "~/yt/../cache" ]}
    (lexical_realpath ["srv"; "app"]) installed home_of.


(** A cache root at 2023-11-14 22:13:20 UTC. *)
Definition cache : Path := of_string "/srv/app/Cache".

Definition now : Q := 1700000000 # 1.

(** Regular files: one eleven and a half days old, one under three hours
    old, and an old one whose [unlink] raises [PermissionError]. *)
Definition old_file : dirent := mkDirent Regular (1699000000 # 1) false false.
Definition fresh_file : dirent := mkDirent Regular (1699990000 # 1) false false.
Definition locked_file : dirent := mkDirent Regular (1699000000 # 1) false true.

Definition healthy : world :=
  mkWorld
    {[ cache // "audio" := Directory {[ "talk.wav" := old_file ]};
       cache // "transcripts" :=
         Directory {[ "talk.json" := old_file; "new.json" := fresh_file ]} ]}
    now [] [].

Definition locked_transcript : world :=
  mkWorld
    {[ cache // "transcripts" :=
         Directory {[ "held.json" := locked_file; "talk.json" := old_file ]} ]}
    now [] [].

Definition locked_audio : world :=
  mkWorld
    {[ cache // "audio" :=
         Directory {[ "held.wav" := locked_file; "talk.wav" := old_file ]} ]}
    now [] [].

(** [Cache/audio] is a plain file, not a directory. *)
Definition audio_is_a_file : world :=
  mkWorld
    {[ cache // "audio" := NotADirectory;
       cache // "transcripts" := Directory {[ "talk.json" := old_file ]} ]}
    now [] [].

(** A subdirectory, and a regular file whose modification time is the
    cutoff of a 7-day window to the second. *)
Definition archive_dir : dirent := mkDirent NotRegular (1690000000 # 1) false false.
Definition edge_file : dirent := mkDirent Regular (1699395200 # 1) false false.
Definition unreadable_file : dirent := mkDirent Regular (1699000000 # 1) true false.

(** A cache root with a third directory beside the two the purge knows. *)
Definition mixed : world :=
  mkWorld
    {[ cache // "audio" := Directory {[ "talk.wav" := old_file ]};
       cache // "transcripts" :=
         Directory {[ "talk.json" := old_file; "new.json" := fresh_file;
                      "held.json" := locked_file; "archive" := archive_dir;
                      "edge.json" := edge_file; "dark.json" := unreadable_file ]};
       cache // "thumbnails" := Directory {[ "talk.png" := old_file ]} ]}
    now [] [].

(** Nothing under the cache root yet. *)
Definition fresh_install : world := mkWorld ∅ now [] [].

(** [Cache/audio] may not be read. *)
Definition audio_unreadable : world :=
  mkWorld
    {[ cache // "audio" := Unreadable;
       cache // "transcripts" := Directory {[ "talk.json" := old_file ]} ]}
    now [] [].

End Scenario.

(** * Properties *)

(** ** Paths *)

Section PathFacts.

Implicit Types (p : Path) (ps stack : list string).

Lemma no_dotdot_app ps qs : no_dotdot (ps ++ qs) = no_dotdot ps && no_dotdot qs.
Proof. apply forallb_app. Qed.

Lemma no_dotdot_rev ps : no_dotdot (rev ps) = no_dotdot ps.
Proof.
  induction ps as [|c ps IH]; simpl; [done|].
  rewrite no_dotdot_app, IH. simpl. rewrite andb_true_r. apply andb_comm.
Qed.

Lemma no_dotdot_tail ps : no_dotdot ps = true → no_dotdot (tail ps) = true.
Proof. destruct ps; simpl; [done|]. by intros [_ ?]%andb_true_iff. Qed.

Lemma no_dotdot_take n ps : no_dotdot ps = true → no_dotdot (take n ps) = true.
Proof.
  revert n. induction ps as [|c ps IH]; intros [|n]; simpl; try done.
  intros [-> ?]%andb_true_iff. simpl. by apply IH.
Qed.

Lemma normparts_no_dotdot stack ps :
  no_dotdot stack = true → no_dotdot (normparts stack ps) = true.
Proof.
  revert stack. induction ps as [|c ps IH]; intros stack Hs; simpl.
  - by rewrite no_dotdot_rev.
  - destruct (String.eqb c "..") eqn:Hc.
    + apply IH. by apply no_dotdot_tail.
    + apply IH. simpl. by rewrite Hc, Hs.
Qed.

Lemma normparts_fixed stack ps :
  no_dotdot ps = true → normparts stack ps = rev stack ++ ps.
Proof.
  revert stack. induction ps as [|c ps IH]; intros stack; simpl.
  - by rewrite app_nil_r.
  - intros [Hc Hps]%andb_true_iff. apply negb_true_iff in Hc. rewrite Hc.
    rewrite IH by done. simpl. by rewrite <- app_assoc.
Qed.

Lemma is_resolved_inv p :
  is_resolved p = true → root p = Root ∧ no_dotdot (parts p) = true.
Proof. unfold is_resolved. by destruct (root p). Qed.

Lemma lexical_realpath_resolved cwd p q :
  lexical_realpath cwd p = Ok q → is_resolved q = true.
Proof.
  intros [= <-]. unfold is_resolved. simpl. by apply normparts_no_dotdot.
Qed.

Lemma lexical_realpath_fixed cwd p :
  is_resolved p = true → lexical_realpath cwd p = Ok p.
Proof.
  intros [Hr Hps]%is_resolved_inv. destruct p as [a ps]. simpl in *. subst a.
  unfold lexical_realpath, absolute. simpl. by rewrite normparts_fixed.
Qed.

Lemma parent_is_resolved p : is_resolved p = true → is_resolved (parent p) = true.
Proof.
  intros [Hr Hps]%is_resolved_inv. unfold is_resolved, parent. simpl.
  rewrite Hr. by apply no_dotdot_take.
Qed.

(** A filesystem without symbolic links is one of the filesystems. *)
Lemma lexical_realpath_laws cwd : realpath_laws (lexical_realpath cwd).
Proof.
  split.
  - apply lexical_realpath_resolved.
  - intros p q Hq. apply lexical_realpath_fixed, parent_is_resolved.
    by apply (lexical_realpath_resolved cwd p).
Qed.

Lemma joinpath_name p s :
  of_string s = mkPath Relative [s] → p // s = child p s.
Proof. unfold joinpath, child. by intros ->. Qed.

Lemma child_is_resolved p s :
  is_resolved p = true → String.eqb s ".." = false →
  is_resolved (child p s) = true.
Proof.
  intros [Hr Hps]%is_resolved_inv Hs. unfold is_resolved, child. simpl.
  rewrite Hr, no_dotdot_app, Hps. simpl. by rewrite Hs.
Qed.

Lemma parent_child p s : parent (child p s) = p.
Proof.
  destruct p as [a ps]. unfold parent, child. simpl. f_equal.
  rewrite length_app. simpl.
  replace (length ps + 1 - 1)%nat with (length ps) by lia.
  by rewrite take_app_length.
Qed.

Lemma name_child p s : name (child p s) = s.
Proof. unfold name, child. simpl. apply last_last. Qed.

Lemma child_length p s : length (parts (child p s)) = S (length (parts p)).
Proof. unfold child. simpl. rewrite length_app. simpl. lia. Qed.




End PathFacts.

(** ** Path resolver *)

Section Resolver.

Variable E : os_env.

Lemma truthy_Some v : truthy (Some v) = true ↔ v ≠ "".
Proof.
  simpl. rewrite negb_true_iff. split.
  - intros H ->. by rewrite String.eqb_refl in H.
  - intros H. by apply String.eqb_neq.
Qed.

Lemma resolve_cache_dir_is_resolved project c :
  realpath_laws (realpath E) →
  resolve_cache_dir E project = Ok c → is_resolved c = true.
Proof.
  intros L. unfold resolve_cache_dir.
  destruct (truthy _).
  - destruct (expanduser _ _) as [q|e]; simpl; [|done].
    apply (rp_resolved _ L).
  - apply (rp_resolved _ L).
Qed.

End Resolver.

(** C4. With [MCP_CACHE_DIR] set to a non-empty value [v],
    [resolve_cache_dir] returns [Path(v).expanduser().resolve()]: the
    tilde-expanded form of [v] as the operating system resolves it (and it
    raises what [expanduser] or [resolve] raises); with the variable unset
    it returns [(project_dir / "Cache").resolve()]. Whatever it returns is
    absolute and resolved. *)
Theorem resolve_cache_dir_override_or_default (E : os_env) (project : Path) :
  (∀ v, environ E !! "MCP_CACHE_DIR" = Some v → v ≠ "" →
        resolve_cache_dir E project
        = let* p := expanduser (os_expanduser E) (of_string v) in realpath E p)
  ∧ (environ E !! "MCP_CACHE_DIR" = None →
        resolve_cache_dir E project = realpath E (project // "Cache"))
  ∧ (realpath_laws (realpath E) →
     ∀ c, resolve_cache_dir E project = Ok c → is_resolved c = true).
Proof.
  split; [|split].
  - intros v Hv Hne. unfold resolve_cache_dir. rewrite Hv.
    apply truthy_Some in Hne. by rewrite Hne.
  - intros Hv. unfold resolve_cache_dir. by rewrite Hv.
  - intros L c. by apply resolve_cache_dir_is_resolved.
Qed.

(** C10. [MCP_CACHE_DIR] set to the empty string is the same as unset:
    [resolve_cache_dir] returns the resolved [<project_dir>/Cache]. *)
Theorem resolve_cache_dir_empty_override
    (env : gmap string string) (rp : Path → result Path) (file : Path)
    (home : string → string) (project : Path) :
  resolve_cache_dir (mkEnv (<["MCP_CACHE_DIR" := ""]> env) rp file home) project
  = resolve_cache_dir (mkEnv (delete "MCP_CACHE_DIR" env) rp file home) project
  ∧ resolve_cache_dir (mkEnv (<["MCP_CACHE_DIR" := ""]> env) rp file home) project
    = rp (project // "Cache").
Proof.
  unfold resolve_cache_dir. simpl.
  by rewrite lookup_insert_eq, lookup_delete_eq.
Qed.


Lemma resolve_cache_dir_override_or_default_witness :
  resolve_cache_dir Scenario.env_override (of_string "/srv/app")
  = Ok (of_string "/home/u/cache")
  ∧ resolve_cache_dir Scenario.env_unset (of_string "/srv/app")
    = Ok (of_string "/srv/app/Cache")
  ∧ is_resolved (of_string "/srv/app/Cache") = true.
Proof.
  pose proof (resolve_cache_dir_override_or_default
                Scenario.env_override (of_string "/srv/app")) as (Hset & _ & _).
  pose proof (resolve_cache_dir_override_or_default
                Scenario.env_unset (of_string "/srv/app")) as (_ & Hunset & Hres).
  split; [|split].
  - rewrite (Hset "~/yt/../cache"); [reflexivity | reflexivity | discriminate].
  - rewrite Hunset; reflexivity.
  - apply Hres; [apply lexical_realpath_laws | reflexivity].
Defined.



(** ** Port validation *)

Lemma int_raises_only_ValueError value e :
  PyInt.int value = Raise e → e = ValueError.
Proof.
  unfold PyInt.int.
  destruct (match PyInt.strip _ with [] => _ | _ => _ end) as [sign ds].
  destruct (PyInt.parse_digits 0 false ds); [|by intros [= <-]].
  destruct (_ <? _)%nat; [by intros [= <-]|done].
Qed.

Section IntRejects.

Import PyInt.

Implicit Types (c : ascii) (cs : list ascii).

Lemma lstrip_keeps c cs : c ∈ cs → is_space c = false → c ∈ lstrip cs.
Proof.
  induction cs as [|c' cs IH]; [by intros ?%not_elem_of_nil|].
  intros Hin Hc. simpl. destruct (is_space c') eqn:Hc'; [|done].
  apply elem_of_cons in Hin as [->|Hin]; [congruence|by apply IH].
Qed.

Lemma strip_keeps c cs : c ∈ cs → is_space c = false → c ∈ strip cs.
Proof.
  intros Hin Hc. unfold strip.
  rewrite list_elem_of_In, <- in_rev, <- list_elem_of_In.
  apply lstrip_keeps; [|done].
  rewrite list_elem_of_In, <- in_rev, <- list_elem_of_In. by apply lstrip_keeps.
Qed.

Lemma parse_digits_rejects c cs : ∀ acc b,
  c ∈ cs → digit_val c = None → Ascii.eqb c "_"%char = false →
  parse_digits acc b cs = None.
Proof.
  induction cs as [|c' cs IH]; intros acc b Hin Hd Hu;
    [by apply not_elem_of_nil in Hin|].
  simpl. apply elem_of_cons in Hin as [<-|Hin].
  - by rewrite Hd, Hu.
  - destruct (digit_val c'); [by apply IH|].
    destruct (_ && _); [by apply IH|done].
Qed.

(** A text with an ASCII character that belongs to no decimal literal is
    no integer. *)
Lemma int_rejects value c :
  c ∈ list_ascii_of_string value → literal_char c = false →
  int value = Raise ValueError.
Proof.
  unfold literal_char. rewrite !orb_false_iff.
  intros Hin (((((Hd & Hu) & Hp) & Hm) & Hs) & _).
  assert (Hd' : digit_val c = None) by by destruct (digit_val c).
  pose proof (strip_keeps _ _ Hin Hs) as Hk.
  unfold int.
  assert (Hrej : ∀ ds, c ∈ ds → parse_digits 0 false ds = None)
    by (intros ds Hds; by apply (parse_digits_rejects c)).
  destruct (strip (list_ascii_of_string value)) as [|c0 r] eqn:Hstrip;
    [by apply not_elem_of_nil in Hk|].
  assert (Hr : c0 ≠ c → parse_digits 0 false r = None).
  { intros Hne. apply Hrej. apply elem_of_cons in Hk as [->|?]; done. }
  destruct (Ascii.eqb c0 "+"%char) eqn:E1.
  { apply Ascii.eqb_eq in E1 as ->. rewrite Hr; [done|].
    intros <-. by rewrite Ascii.eqb_refl in Hp. }
  destruct (Ascii.eqb c0 "-"%char) eqn:E2.
  { apply Ascii.eqb_eq in E2 as ->. rewrite Hr; [done|].
    intros <-. by rewrite Ascii.eqb_refl in Hm. }
  assert (Hsign : (match c0 :: r with
                   | "+"%char :: r0 => (1%Z, r0)
                   | "-"%char :: r0 => ((-1)%Z, r0)
                   | _ => (1%Z, c0 :: r)
                   end) = (1%Z, c0 :: r)).
  { apply Ascii.eqb_neq in E1, E2.
    destruct c0 as [[] [] [] [] [] [] [] []]; try done. }
  rewrite Hsign. by rewrite (Hrej _ Hk).
Qed.

End IntRejects.

Lemma port_type_of_int value n :
  PyInt.int value = Ok n →
  port_type value
  = if (1 <=? n)%Z && (n <=? 65535)%Z then Ok n
    else Raise (ArgumentTypeError (OutOfRange n)).
Proof.
  intros H. unfold port_type. rewrite H. simpl.
  by destruct ((1 <=? n)%Z && (n <=? 65535)%Z).
Qed.

Lemma port_type_not_int value :
  PyInt.int value = Raise ValueError →
  port_type value = Raise (ArgumentTypeError (NotAnInteger value)).
Proof. intros H. unfold port_type. by rewrite H. Qed.

(** C5. [port_type] returns 1 and 65535 on ["1"] and ["65535"]; on ["0"],
    on ["65536"] and on every ASCII text [int] rejects (so on every text
    with an ASCII character that is no part of a decimal literal) it raises
    [ArgumentTypeError]; on any text whatever it either returns a port in
    [1, 65535] or raises [ArgumentTypeError], never another exception; and
    the parser turns that exception into a usage error, exit status 2. *)
Theorem port_type_boundaries :
  port_type "1" = Ok 1
  ∧ port_type "65535" = Ok 65535
  ∧ port_type "0" = Raise (ArgumentTypeError (OutOfRange 0))
  ∧ port_type "65536" = Raise (ArgumentTypeError (OutOfRange 65536))
  ∧ (∀ value e, PyInt.ascii_text value → PyInt.int value = Raise e →
       port_type value = Raise (ArgumentTypeError (NotAnInteger value)))
  ∧ (∀ value c, c ∈ list_ascii_of_string value → PyInt.literal_char c = false →
       port_type value = Raise (ArgumentTypeError (NotAnInteger value)))
  ∧ port_type "http" = Raise (ArgumentTypeError (NotAnInteger "http"))
  ∧ (∀ value,
       (∃ n, port_type value = Ok n ∧ (1 ≤ n ≤ 65535)%Z)
       ∨ (∃ msg, port_type value = Raise (ArgumentTypeError msg)))
  ∧ (∀ value msg rest,
       PyInt.ascii_text value →
       port_type value = Raise (ArgumentTypeError msg) →
       parse_args (ArgPort value :: rest) = Raise (SystemExit 2)).
Proof.
  repeat split; try reflexivity.
  - intros value e _ He. pose proof (int_raises_only_ValueError _ _ He) as ->.
    by apply port_type_not_int.
  - intros value c Hin Hc. apply port_type_not_int. by apply (int_rejects _ c).
  - intros value. destruct (PyInt.int value) as [n|e] eqn:Hi.
    + rewrite (port_type_of_int _ _ Hi).
      destruct ((1 <=? n)%Z && (n <=? 65535)%Z) eqn:Hr.
      * left. exists n. split; [done|]. apply andb_true_iff in Hr. lia.
      * right. by eexists.
    + right. pose proof (int_raises_only_ValueError _ _ Hi) as ->.
      rewrite (port_type_not_int _ Hi). by eexists.
  - intros value msg rest _ Hp. unfold parse_args. simpl. by rewrite Hp.
Qed.

(** ** Debug stub *)

Section Stub.

Import DebugStub.

Lemma stub_parse_args_accepts value test :
  DebugStub.parse_args (TestOption value) = inr test ↔
  test = str_lower value ∧ test ∈ choices.
Proof.
  unfold DebugStub.parse_args. case_bool_decide as Hin; split.
  - intros [= <-]. done.
  - by intros [-> _].
  - done.
  - intros [-> ?]. done.
Qed.

Lemma elem_of_choices test :
  test ∈ choices ↔
  test = "mcp_yt-server" ∨ test = "universal-client" ∨ test = "yt-search".
Proof. unfold choices. rewrite !elem_of_cons, elem_of_nil. tauto. Qed.

Lemma debug_stub_no_arguments : debug_stub NoArguments = Exited 2 UsageAndError.
Proof. reflexivity. Qed.

Lemma debug_stub_client value :
  str_lower value = "universal-client" →
  debug_stub (TestOption value) = Called ClientRun.
Proof. intros H. unfold debug_stub, DebugStub.parse_args. rewrite H. reflexivity. Qed.

Lemma debug_stub_search value :
  str_lower value = "yt-search" →
  debug_stub (TestOption value) = Called SearchTest.
Proof. intros H. unfold debug_stub, DebugStub.parse_args. rewrite H. reflexivity. Qed.

End Stub.

(** C6 fails on the server selector. The parser accepts ["mcp_yt-server"]
    (with an underscore), the [match] tests for ["mcp-yt-server"] (with a
    hyphen): the accepted selector falls through the [match] and nothing is
    called, and no command line reaches the server's [main]. *)
Theorem debug_stub_server_selector_falls_through :
  DebugStub.parse_args (DebugStub.TestOption "mcp_yt-server") = inr "mcp_yt-server"
  ∧ DebugStub.debug_stub (DebugStub.TestOption "mcp_yt-server") = DebugStub.Returned
  ∧ DebugStub.debug_stub (DebugStub.TestOption "mcp-yt-server")
    = DebugStub.Exited 2 DebugStub.UsageAndError
  ∧ ∀ c, DebugStub.debug_stub c ≠ DebugStub.Called DebugStub.ServerMain.
Proof.
  repeat split; try reflexivity.
  intros [|value]; [done|].
  unfold DebugStub.debug_stub.
  destruct (DebugStub.parse_args (DebugStub.TestOption value)) as [o|test] eqn:Hp.
  - unfold DebugStub.parse_args in Hp. case_bool_decide; [done|].
    by injection Hp as <-.
  - apply stub_parse_args_accepts in Hp as [_ Hin].
    apply elem_of_choices in Hin as [-> | [-> | ->]]; done.
Qed.

(** ** Cache purger *)

Lemma Qltb_lt x y : Qltb x y = true ↔ (x < y)%Q.
Proof.
  unfold Qltb. rewrite negb_true_iff, <- not_true_iff_false, Qle_bool_iff.
  split; [apply Qnot_le_lt | apply Qlt_not_le].
Qed.

Lemma Qltb_ge x y : Qltb x y = false ↔ (y <= x)%Q.
Proof.
  unfold Qltb. rewrite negb_false_iff. apply Qle_bool_iff.
Qed.

Lemma raises_not_unlinked cutoff e :
  raises cutoff e = true → unlinked cutoff e = false.
Proof.
  unfold raises, unlinked.
  destruct (stat_fails e), (kind e), (Qltb _ _), (unlink_fails e); simpl; done.
Qed.

Lemma lookup_entry_child w d n :
  lookup_entry w (child d n)
  = match fs w !! d with
    | Some (Directory es) => es !! n
    | _ => None
    end.
Proof. unfold lookup_entry. by rewrite parent_child, name_child. Qed.

Section PurgeLoop.

Variable cutoff : Q.
Variable d : Path.

(** One turn of the inner loop never raises; it unlinks the entry, or logs
    it, or leaves everything as it is. *)
Lemma purge_cache_file_spec n w es :
  fs w !! d = Some (Directory es) →
  purge_cache_file cutoff (child d n) w
  = (Ok tt,
     match es !! n with
     | Some e =>
         if unlinked cutoff e
         then set_fs (<[d := Directory (delete n es)]> (fs w)) w
         else if raises cutoff e
              then mkWorld (fs w) (clock w) (logged w ++ [child d n]) (calls w)
              else w
     | None => w
     end).
Proof.
  intros Hd.
  unfold purge_cache_file, try_except_OSError, bind, is_file, stat_st_mtime,
    unlink, lookup_entry, logger_exception, ret.
  rewrite !parent_child, !name_child, Hd.
  destruct (es !! n) as [e|] eqn:He; [|done].
  unfold unlinked, raises.
  destruct e as [k m sf uf]; simpl.
  destruct sf, k, uf; simpl; try done;
    rewrite Hd, He; simpl;
    destruct (Qltb m cutoff); simpl; rewrite ?Hd, ?He; done.
Qed.

End PurgeLoop.

Section PurgeDirectory.

Variable cutoff : Q.
Variable d : Path.

Implicit Types (w : world) (es : gmap string dirent) (names : list string).

(** One turn, in the shape the induction uses. *)
Lemma purge_cache_file_step n w es :
  fs w !! d = Some (Directory es) →
  ∃ w1 es1,
    purge_cache_file cutoff (child d n) w = (Ok tt, w1)
    ∧ fs w1 = <[d := Directory es1]> (fs w)
    ∧ clock w1 = clock w ∧ calls w1 = calls w
    ∧ (∀ m, es1 !! m
            = es !! m ≫= λ e,
                if bool_decide (m = n) && unlinked cutoff e then None else Some e)
    ∧ (∀ p, p ∈ logged w1 ↔
            p ∈ logged w
            ∨ ∃ e, p = child d n ∧ es !! n = Some e ∧ raises cutoff e = true).
Proof.
  intros Hd. rewrite (purge_cache_file_spec cutoff d n w es Hd).
  assert (Hid : fs w = <[d := Directory es]> (fs w)) by by rewrite insert_id.
  assert (Hsame : ∀ m, (∀ e, es !! n = Some e → unlinked cutoff e = false) →
            es !! m = es !! m ≫= λ e,
              if bool_decide (m = n) && unlinked cutoff e then None else Some e).
  { intros m Hn. destruct (es !! m) as [e|] eqn:Hm; simpl; [|done].
    case_bool_decide as Hmn; simpl; [|done].
    subst m. by rewrite (Hn e Hm). }
  destruct (es !! n) as [e|] eqn:He.
  - destruct (unlinked cutoff e) eqn:Hu; [|destruct (raises cutoff e) eqn:Hr].
    + exists (set_fs (<[d := Directory (delete n es)]> (fs w)) w), (delete n es).
      repeat split; try done.
      * intros m. destruct (decide (m = n)) as [->|Hmn].
        -- rewrite lookup_delete_eq, He. simpl.
           by rewrite bool_decide_eq_true_2, Hu.
        -- rewrite lookup_delete_ne by done.
           destruct (es !! m); simpl; [|done].
           by rewrite bool_decide_eq_false_2.
      * by left.
      * simpl. intros [?|(e' & _ & [= <-] & Hr)]; [done|].
        apply raises_not_unlinked in Hr. congruence.
    + eexists _, es. repeat split; try done.
      * intros m. apply Hsame. by intros ? [= <-].
      * simpl. rewrite elem_of_app, list_elem_of_singleton.
        intros [?| ->]; [by left|right; by exists e].
      * simpl. rewrite elem_of_app, list_elem_of_singleton.
        intros [?|(_ & -> & _)]; [by left|by right].
    + exists w, es. repeat split; try done.
      * intros m. apply Hsame. by intros ? [= <-].
      * by left.
      * intros [?|(e' & _ & [= <-] & Hr')]; [done|congruence].
  - exists w, es. repeat split; try done.
    + intros m. apply Hsame. by intros ? [=].
    + by left.
    + by intros [?|(e' & _ & [=] & _)].
Qed.

(** The inner loop over any list of entry names of [d]: it never raises;
    it removes exactly the listed entries that are [unlinked], and logs
    exactly the listed entries on which the [try] body [raises]. *)
Lemma purge_loop_spec names : ∀ w es,
  fs w !! d = Some (Directory es) →
  ∃ w' es',
    for_each (child d <$> names) (purge_cache_file cutoff) w = (Ok tt, w')
    ∧ fs w' = <[d := Directory es']> (fs w)
    ∧ clock w' = clock w ∧ calls w' = calls w
    ∧ (∀ m, es' !! m
            = es !! m ≫= λ e,
                if bool_decide (m ∈ names) && unlinked cutoff e then None else Some e)
    ∧ (∀ p, p ∈ logged w' ↔
            p ∈ logged w
            ∨ ∃ m e, p = child d m ∧ m ∈ names ∧ es !! m = Some e
                     ∧ raises cutoff e = true).
Proof.
  induction names as [|n names IH]; intros w es Hd.
  - exists w, es. simpl. repeat split; try done.
    + by rewrite insert_id.
    + intros m. by destruct (es !! m).
    + by left.
    + intros [?|(m & e & _ & Hin & _)]; [done|]. by apply not_elem_of_nil in Hin.
  - destruct (purge_cache_file_step n w es Hd)
      as (w1 & es1 & Hrun1 & Hfs1 & Hck1 & Hcl1 & Hes1 & Hlog1).
    assert (Hd1 : fs w1 !! d = Some (Directory es1))
      by by rewrite Hfs1, lookup_insert_eq.
    destruct (IH w1 es1 Hd1) as (w' & es' & Hrun & Hfs & Hck & Hcl & Hes & Hlog).
    exists w', es'. simpl. unfold bind at 1. rewrite Hrun1. cbv beta iota.
    split; [exact Hrun|]. split; [by rewrite Hfs, Hfs1, insert_insert_eq|].
    split; [congruence|]. split; [congruence|]. split.
    + intros m. rewrite Hes, Hes1.
      assert (Hb : bool_decide (m ∈ n :: names)
                   = bool_decide (m = n) || bool_decide (m ∈ names)).
      { rewrite <- bool_decide_or. apply bool_decide_ext, elem_of_cons. }
      rewrite Hb. destruct (es !! m) as [e|]; simpl; [|done].
      destruct (bool_decide (m = n)), (unlinked cutoff e) eqn:Hu; simpl;
        rewrite ?Hu, ?andb_true_r, ?andb_false_r; done.
    + intros p. rewrite Hlog, Hlog1. split.
      * intros [[?|(e & -> & He & Hr)]|(m & e & -> & Hin & He & Hr)].
        -- by left.
        -- right. exists n, e. repeat split; try done. by left.
        -- right. exists m, e. repeat split; try done; [by right|].
           rewrite Hes1 in He. destruct (es !! m) as [e0|]; simpl in He; [|done].
           by destruct (_ && _); simplify_eq.
      * intros [?|(m & e & -> & [->|Hin]%elem_of_cons & He & Hr)].
        -- by left; left.
        -- left; right. by exists e.
        -- right. exists m, e. repeat split; try done.
           rewrite Hes1, He. simpl.
           by rewrite (raises_not_unlinked _ _ Hr), andb_false_r.
Qed.

Lemma elem_of_listing es m : m ∈ (map_to_list es).*1 ↔ is_Some (es !! m).
Proof.
  rewrite list_elem_of_fmap. split.
  - intros ([m' e] & -> & Hin). apply elem_of_map_to_list in Hin. by exists e.
  - intros [e He]. exists (m, e). split; [done|]. by apply elem_of_map_to_list.
Qed.

End PurgeDirectory.

Section PurgeCache.

Variable cache : Path.

Implicit Types (w : world) (es : gmap string dirent).

Lemma purged_dir_lookup cutoff d f d' :
  purged_dir cutoff d f !! d'
  = if decide (d = d')
    then match f !! d with
         | Some (Directory es) => Some (Directory (survivors cutoff es))
         | o => o
         end
    else f !! d'.
Proof.
  unfold purged_dir. destruct (decide (d = d')) as [<-|Hne].
  - destruct (f !! d) as [[es| | |]|] eqn:Hd; by rewrite ?lookup_insert_eq.
  - destruct (f !! d) as [[es| | |]|]; by rewrite ?lookup_insert_ne.
Qed.

Lemma survivors_lookup cutoff es n :
  survivors cutoff es !! n
  = es !! n ≫= λ e, if unlinked cutoff e then None else Some e.
Proof.
  unfold survivors. rewrite map_lookup_filter.
  destruct (es !! n) as [e|]; simpl; [|done].
  destruct (unlinked cutoff e); by case_guard.
Qed.

(** The outer loop's body on the subdirectory [rel]: it raises only when
    [cache/rel] is there and cannot be listed, and then changes nothing;
    otherwise the directory keeps its [survivors], and exactly the entries
    on which the [try] body raises are logged. *)
Lemma purge_cache_dir_spec cutoff rel w :
  of_string rel = mkPath Relative [rel] →
  let d := child cache rel in
  ∃ w',
    purge_cache_dir cutoff cache rel w
    = (match listing_error (fs w) d with
       | Some c => Raise (OSError c)
       | None => Ok tt
       end, w')
    ∧ fs w' = purged_dir cutoff d (fs w)
    ∧ clock w' = clock w ∧ calls w' = calls w
    ∧ (∀ p, p ∈ logged w' ↔
            p ∈ logged w
            ∨ ∃ es m e, fs w !! d = Some (Directory es) ∧ p = child d m
                        ∧ es !! m = Some e ∧ raises cutoff e = true).
Proof.
  intros Hrel d. unfold purge_cache_dir. rewrite (joinpath_name _ _ Hrel).
  subst d. set (d := child cache rel).
  unfold bind, path_exists, iterdir, listing_error, purged_dir.
  destruct (fs w !! d) as [[es| | |]|] eqn:Hd; simpl; rewrite ?Hd; simpl.
  - destruct (purge_loop_spec cutoff d (map_to_list es).*1 w es Hd)
      as (w' & es' & Hrun & Hfs & Hck & Hcl & Hes & Hlog).
    exists w'. split; [exact Hrun|].
    assert (es' = survivors cutoff es) as ->.
    { apply map_eq. intros m. rewrite Hes, survivors_lookup.
      destruct (es !! m) as [e|] eqn:Hm; simpl; [|done].
      rewrite bool_decide_eq_true_2; [done|].
      apply elem_of_listing. by exists e. }
    repeat split; try done.
    + rewrite Hlog. intros [?|(m & e & -> & _ & He & Hr)]; [by left|].
      right. by exists es, m, e.
    + rewrite Hlog. intros [?|(es0 & m & e & [= <-] & -> & He & Hr)]; [by left|].
      right. exists m, e. repeat split; try done.
      apply elem_of_listing. by exists e.
  - exists w. repeat split; try done; [by left|].
    by intros [?|(? & ? & ? & [=] & _)].
  - exists w. repeat split; try done; [by left|].
    by intros [?|(? & ? & ? & [=] & _)].
  - exists w. repeat split; try done; [by left|].
    by intros [?|(? & ? & ? & [=] & _)].
  - exists w. repeat split; try done; [by left|].
    by intros [?|(? & ? & ? & [=] & _)].
Qed.

Lemma audio_name : of_string "audio" = mkPath Relative ["audio"].
Proof. reflexivity. Qed.

Lemma transcripts_name : of_string "transcripts" = mkPath Relative ["transcripts"].
Proof. reflexivity. Qed.

Lemma audio_ne_transcripts : child cache "audio" ≠ child cache "transcripts".
Proof. unfold child. intros [= H]. by apply app_inj_tail in H as [_ [=]]. Qed.

Lemma purge_cache_dir_listing_error cutoff rel w c :
  of_string rel = mkPath Relative [rel] →
  listing_error (fs w) (child cache rel) = Some c →
  purge_cache_dir cutoff cache rel w = (Raise (OSError c), w).
Proof.
  intros Hrel Hn. unfold listing_error in Hn.
  unfold purge_cache_dir. rewrite (joinpath_name _ _ Hrel).
  unfold bind, path_exists, iterdir.
  destruct (fs w !! child cache rel) as [[es| | |]|] eqn:Hd; simplify_eq;
    simpl; by rewrite ?Hd.
Qed.

(** When [cache/audio] is there and cannot be listed, the [OSError]
    leaves [purge_cache] before [transcripts] is looked at. *)
Lemma purge_cache_audio_listing_error days w c :
  listing_error (fs w) (child cache "audio") = Some c →
  purge_cache cache days w = (Raise (OSError c), w).
Proof.
  intros Ha. unfold purge_cache, bind at 1, time_time. simpl for_each.
  unfold bind at 1.
  by rewrite (purge_cache_dir_listing_error _ "audio" w c audio_name Ha).
Qed.

(** Otherwise both subdirectories are gone through, in order. *)
Lemma purge_cache_spec days w :
  let cutoff := cutoff_of (clock w) days in
  let A := child cache "audio" in
  let T := child cache "transcripts" in
  listing_error (fs w) A = None →
  ∃ w',
    purge_cache cache days w
    = (match listing_error (fs w) T with
       | Some c => Raise (OSError c)
       | None => Ok tt
       end, w')
    ∧ fs w' = purged_dir cutoff T (purged_dir cutoff A (fs w))
    ∧ clock w' = clock w ∧ calls w' = calls w
    ∧ (∀ p, p ∈ logged w' ↔
            p ∈ logged w
            ∨ ∃ d es m e, (d = A ∨ d = T) ∧ fs w !! d = Some (Directory es)
                          ∧ p = child d m ∧ es !! m = Some e
                          ∧ raises cutoff e = true).
Proof.
  intros cutoff A T Ha.
  destruct (purge_cache_dir_spec cutoff "audio" w audio_name)
    as (w1 & Hrun1 & Hfs1 & Hck1 & Hcl1 & Hlog1).
  destruct (purge_cache_dir_spec cutoff "transcripts" w1 transcripts_name)
    as (w2 & Hrun2 & Hfs2 & Hck2 & Hcl2 & Hlog2).
  fold A in Hrun1, Hfs1, Hlog1. fold T in Hrun2, Hfs2, Hlog2.
  rewrite Ha in Hrun1.
  assert (HT : fs w1 !! T = fs w !! T).
  { rewrite Hfs1, purged_dir_lookup.
    destruct (decide (A = T)) as [HAT|]; [|done].
    by apply audio_ne_transcripts in HAT. }
  assert (HnT : listing_error (fs w1) T = listing_error (fs w) T)
    by (unfold listing_error; by rewrite HT).
  exists w2. split.
  - unfold purge_cache, bind at 1, time_time. simpl for_each.
    unfold bind at 1. fold cutoff. rewrite Hrun1. cbv beta iota.
    unfold bind at 1. rewrite Hrun2, HnT.
    by destruct (listing_error (fs w) T).
  - split; [by rewrite Hfs2, Hfs1|]. split; [congruence|]. split; [congruence|].
    intros p. rewrite Hlog2, Hlog1, HT. split.
    + intros [[?|(es & m & e & Hd & -> & He & Hr)]|(es & m & e & Hd & -> & He & Hr)].
      * by left.
      * right. exists A, es, m, e. repeat split; try done. by left.
      * right. exists T, es, m, e. repeat split; try done. by right.
    + intros [?|(d & es & m & e & [-> | ->] & Hd & -> & He & Hr)].
      * by left; left.
      * left; right. by exists es, m, e.
      * right. by exists es, m, e.
Qed.

End PurgeCache.

Lemma unlinked_true_iff cutoff e :
  unlinked cutoff e = true ↔
  stat_fails e = false ∧ kind e = Regular ∧ (st_mtime e < cutoff)%Q
  ∧ unlink_fails e = false.
Proof.
  unfold unlinked. rewrite !andb_true_iff, !negb_true_iff, Qltb_lt.
  destruct (kind e); intuition congruence.
Qed.

Lemma not_older_not_unlinked cutoff e :
  (cutoff <= st_mtime e)%Q → unlinked cutoff e = false.
Proof.
  intros H. apply Qltb_ge in H. unfold unlinked. rewrite H.
  by rewrite andb_false_r.
Qed.

(** What [purge_cache] does to one entry of [audio] or [transcripts]. *)
Lemma purge_cache_entry cache days w rel es n e :
  rel = "audio" ∨ rel = "transcripts" →
  fs w !! child cache rel = Some (Directory es) →
  es !! n = Some e →
  let cutoff := cutoff_of (clock w) days in
  let w' := (purge_cache cache days w).2 in
  (unlinked cutoff e = false →
     lookup_entry w' (child (child cache rel) n) = Some e)
  ∧ (listing_error (fs w) (child cache "audio") = None →
     unlinked cutoff e = true →
     lookup_entry w' (child (child cache rel) n) = None).
Proof.
  intros Hrel Hd He cutoff w'. subst w'.
  destruct (listing_error (fs w) (child cache "audio")) as [c|] eqn:Ha.
  - rewrite (purge_cache_audio_listing_error cache days w c Ha). simpl.
    rewrite lookup_entry_child, Hd. by split.
  - destruct (purge_cache_spec cache days w Ha)
      as (w' & -> & Hfs & _). fold cutoff in Hfs. simpl.
    rewrite lookup_entry_child, Hfs, !purged_dir_lookup.
    pose proof (audio_ne_transcripts cache) as Hne.
    destruct Hrel as [-> | ->]; repeat case_decide; try done;
      rewrite Hd, survivors_lookup, He; simpl;
      split; intros; simplify_eq; by destruct (unlinked cutoff e).
Qed.

Lemma purge_cache_returns cache days w :
  listing_error (fs w) (child cache "audio") = None →
  listing_error (fs w) (child cache "transcripts") = None →
  (purge_cache cache days w).1 = Ok tt.
Proof.
  intros Ha Ht. destruct (purge_cache_spec cache days w Ha) as (w' & -> & _).
  simpl. by rewrite Ht.
Qed.

(** C1 fails on the code. The loop of [purge_cache] runs over ["audio"] as
    well as ["transcripts"]: with the default window of 7 days, the old
    regular file [Cache/audio/talk.wav] is there before the purge and gone
    after it. *)
Theorem purge_cache_unlinks_old_audio :
  let w' := (purge_cache Scenario.cache 7 Scenario.healthy).2 in
  lookup_entry Scenario.healthy (Scenario.cache // "audio" // "talk.wav")
  = Some Scenario.old_file
  ∧ (purge_cache Scenario.cache 7 Scenario.healthy).1 = Ok tt
  ∧ lookup_entry w' (Scenario.cache // "audio" // "talk.wav") = None
  ∧ fs w' !! (Scenario.cache // "audio") = Some (Directory ∅).
Proof. vm_compute. repeat split; reflexivity. Qed.

(** C2, as stated, fails on a file whose [unlink] raises: the regular
    file [Cache/transcripts/held.json] is older than [now - 7 days], the
    [OSError] of its [unlink] is caught and logged, and the file is still
    there after the purge. *)
Lemma purge_cache_keeps_locked_transcript :
  let w := Scenario.locked_transcript in
  let held := Scenario.cache // "transcripts" // "held.json" in
  lookup_entry w held = Some Scenario.locked_file
  ∧ kind Scenario.locked_file = Regular
  ∧ (st_mtime Scenario.locked_file < cutoff_of (clock w) 7)%Q
  ∧ lookup_entry (purge_cache Scenario.cache 7 w).2 held
    = Some Scenario.locked_file
  ∧ logged (purge_cache Scenario.cache 7 w).2 = [held].
Proof. vm_compute. repeat split; reflexivity. Qed.

(** C2, as the code has it. For every window [days >= 0] that reaches
    back no further than the clock's own reading (so that the binary64
    subtraction [time.time() - days * 86_400] is exact), with
    [cache/transcripts] a directory that can be listed: a regular file in
    it that is older than [now - days * 86400] is removed when its [stat]
    and its [unlink] raise nothing and [cache/audio] is absent or a
    directory that can be listed; a regular file in it that is newer than
    that boundary is retained. *)
Theorem purge_cache_transcripts_by_age
    (cache : Path) (days : Z) (w : world)
    (es : gmap string dirent) (n : string) (e : dirent) :
  exact_window (clock w) days →
  fs w !! (cache // "transcripts") = Some (Directory es) →
  es !! n = Some e →
  kind e = Regular →
  let boundary := cutoff_of (clock w) days in
  let w' := (purge_cache cache days w).2 in
  ((st_mtime e < boundary)%Q →
     stat_fails e = false → unlink_fails e = false →
     listing_error (fs w) (cache // "audio") = None →
     lookup_entry w' (child (cache // "transcripts") n) = None)
  ∧ ((boundary < st_mtime e)%Q →
     lookup_entry w' (child (cache // "transcripts") n) = Some e).
Proof.
  intros _ Hd He Hk boundary w'.
  destruct (purge_cache_entry cache days w "transcripts" es n e
              (or_intror eq_refl) Hd He) as [Hkeep Hdrop].
  split.
  - intros Hold Hs Hu Ha. apply Hdrop; [exact Ha|].
    by apply unlinked_true_iff.
  - intros Hnew. apply Hkeep, not_older_not_unlinked. by apply Qlt_le_weak.
Qed.

Lemma purge_cache_transcripts_by_age_witness :
  let w' := (purge_cache Scenario.cache 7 Scenario.healthy).2 in
  lookup_entry w' (Scenario.cache // "transcripts" // "talk.json") = None
  ∧ lookup_entry w' (Scenario.cache // "transcripts" // "new.json")
    = Some Scenario.fresh_file.
Proof.
  split.
  - apply (purge_cache_transcripts_by_age Scenario.cache 7 Scenario.healthy
             {[ "talk.json" := Scenario.old_file; "new.json" := Scenario.fresh_file ]}
             "talk.json" Scenario.old_file);
      first [reflexivity | discriminate | by vm_compute].
  - apply (purge_cache_transcripts_by_age Scenario.cache 7 Scenario.healthy
             {[ "talk.json" := Scenario.old_file; "new.json" := Scenario.fresh_file ]}
             "new.json" Scenario.fresh_file);
      first [reflexivity | discriminate | by vm_compute].
Defined.

(** C7 fails on the code. The [try] statement covers one entry;
    [d.iterdir()] is outside it. With [Cache/audio] a plain file,
    [purge_cache] raises [NotADirectoryError] (an [OSError]) to its caller,
    and the old file in [transcripts] has not been looked at. *)
Theorem purge_cache_raises_when_audio_is_a_file :
  let w := Scenario.audio_is_a_file in
  purge_cache Scenario.cache 7 w = (Raise (OSError ENOTDIR), w)
  ∧ lookup_entry (purge_cache Scenario.cache 7 w).2
      (Scenario.cache // "transcripts" // "talk.json")
    = Some Scenario.old_file.
Proof.
  intros w.
  rewrite (purge_cache_audio_listing_error Scenario.cache 7 w ENOTDIR eq_refl).
  split; reflexivity.
Qed.

(** ** Startup *)

Lemma launch_server_without_purge E h p w :
  launch_server E h p None w
  = match resolve_paths E (module_file E) with
    | Ok paths =>
        (Ok tt,
         mkWorld (fs w) (clock w) (logged w)
           (calls w ++ [RegisterTools (tools_dir paths);
                        RegisterPromptsFromMarkdown (prompts_dir paths);
                        RegisterPrompts (prompts_dir paths);
                        Run "http" h p]))
    | Raise e => (Raise e, w)
    end.
Proof.
  unfold launch_server, bind at 1, lift.
  destruct (resolve_paths E (module_file E)) as [paths|e]; [|done].
  unfold attach_everything, bind, external, ret. simpl.
  by rewrite <- !app_assoc.
Qed.

Lemma main_parsed E argv args w :
  parse_args argv = Ok args →
  main E argv w
  = launch_server E (host args) (port args)
      (if (purge_cache_days args <? 0)%Z then None
       else Some (purge_cache_days args)) w.
Proof. intros Hp. unfold main, bind at 1, lift. by rewrite Hp. Qed.

Lemma main_negative_days E argv args w :
  parse_args argv = Ok args → (purge_cache_days args < 0)%Z →
  main E argv w = launch_server E (host args) (port args) None w.
Proof.
  intros Hp Hd. rewrite (main_parsed E argv args w Hp).
  by rewrite (proj2 (Z.ltb_lt _ 0) Hd).
Qed.

Lemma main_nonnegative_days E argv args w :
  parse_args argv = Ok args → (0 ≤ purge_cache_days args)%Z →
  main E argv w
  = launch_server E (host args) (port args) (Some (purge_cache_days args)) w.
Proof.
  intros Hp Hd. rewrite (main_parsed E argv args w Hp).
  by rewrite (proj2 (Z.ltb_ge _ 0) Hd).
Qed.

Lemma main_negative_days_fs E argv args w :
  parse_args argv = Ok args → (purge_cache_days args < 0)%Z →
  fs (main E argv w).2 = fs w.
Proof.
  intros Hp Hd. rewrite (main_negative_days E argv args w Hp Hd).
  rewrite launch_server_without_purge.
  by destruct (resolve_paths E (module_file E)).
Qed.

(** The three options, each given once, parse to what they say. *)
Lemma parse_args_all h p v n d :
  port_type p = Ok n → PyInt.int v = Ok d →
  parse_args [ArgHost h; ArgPort p; ArgPurgeCacheDays v] = Ok (mkNamespace h n d).
Proof.
  intros Hp Hv. unfold parse_args. simpl. rewrite Hp. simpl. by rewrite Hv.
Qed.

(** C3. For every command line that parses, with whatever host and port,
    to a negative [--purge-cache-days], [main] passes [purge_days = None]:
    the startup touches neither the directories nor the log, and goes
    straight to the three registrations and the listener on that host and
    port; when the paths cannot be resolved it raises with the world as it
    was. *)
Theorem main_negative_days_skips_purge
    (E : os_env) (argv : list cli_arg) (args : Namespace) (w : world) :
  parse_args argv = Ok args →
  (purge_cache_days args < 0)%Z →
  let out := main E argv w in
  fs out.2 = fs w
  ∧ logged out.2 = logged w
  ∧ (∀ paths, resolve_paths E (module_file E) = Ok paths →
       out = (Ok tt,
              mkWorld (fs w) (clock w) (logged w)
                (calls w ++ [RegisterTools (tools_dir paths);
                             RegisterPromptsFromMarkdown (prompts_dir paths);
                             RegisterPrompts (prompts_dir paths);
                             Run "http" (host args) (port args)])))
  ∧ (∀ e, resolve_paths E (module_file E) = Raise e → out = (Raise e, w)).
Proof.
  intros Hp Hd out. subst out.
  rewrite (main_negative_days E argv args w Hp Hd), launch_server_without_purge.
  destruct (resolve_paths E (module_file E)) as [paths|e]; simpl;
    repeat split; try done; by intros ? [= <-].
Qed.

Lemma main_negative_days_skips_purge_witness :
  let out := main Scenario.env_unset
               [ArgHost "0.0.0.0"; ArgPort "8090"; ArgPurgeCacheDays "-1"]
               Scenario.healthy in
  fs out.2 = fs Scenario.healthy
  ∧ calls out.2
    = [RegisterTools (of_string "/srv/app/src/modules/tools");
       RegisterPromptsFromMarkdown (of_string "/srv/app/src/modules/prompts");
       RegisterPrompts (of_string "/srv/app/src/modules/prompts");
       Run "http" "0.0.0.0" 8090].
Proof.
  destruct (main_negative_days_skips_purge Scenario.env_unset
              [ArgHost "0.0.0.0"; ArgPort "8090"; ArgPurgeCacheDays "-1"]
              (mkNamespace "0.0.0.0" 8090 (-1)) Scenario.healthy)
    as (Hfs & _ & Hok & _); [reflexivity|simpl; lia|].
  split; [exact Hfs|].
  rewrite (Hok _ eq_refl). reflexivity.
Defined.
(** ** Negative windows *)

Lemma cutoff_of_negative now days :
  (days < 0)%Z →
  (cutoff_of now days == now + inject_Z (Z.abs days * 86400))%Q
  ∧ (now < cutoff_of now days)%Q.
Proof.
  intros Hd. unfold cutoff_of.
  assert (Habs : (Z.abs days * 86400 = - (days * 86400))%Z) by lia.
  rewrite Habs, inject_Z_opp. split; [ring|].
  assert (Hpos : (inject_Z (days * 86400) < 0)%Q).
  { change 0%Q with (inject_Z 0). rewrite <- Zlt_Qlt. lia. }
  lra.
Qed.

(** C9, as stated, fails on a file whose [unlink] raises: called with
    [days = -1], [purge_cache] leaves the regular file
    [Cache/audio/held.wav], whose modification time is in the past, where
    it is, and logs it. *)
Lemma purge_cache_negative_keeps_locked_audio :
  let w := Scenario.locked_audio in
  let held := Scenario.cache // "audio" // "held.wav" in
  lookup_entry w held = Some Scenario.locked_file
  ∧ kind Scenario.locked_file = Regular
  ∧ (st_mtime Scenario.locked_file <= clock w)%Q
  ∧ lookup_entry (purge_cache Scenario.cache (-1) w).2 held
    = Some Scenario.locked_file
  ∧ logged (purge_cache Scenario.cache (-1) w).2 = [held].
Proof. vm_compute. repeat split; try reflexivity; discriminate. Qed.

(** C9, as the code has it. Called with [days < 0], of a size that
    [days * 86_400] still converts to a float, [purge_cache] computes the
    cutoff [now + |days| * 86400], which lies in the future; every regular
    file directly in [audio] or [transcripts] (a directory that can be
    listed) whose modification time is not in the future, and whose [stat]
    and [unlink] raise nothing, is removed, given that [cache/audio] is
    absent or a directory that can be listed; while [main], on a command
    line that parses to the same negative value, leaves the directories as
    they are. *)
Theorem purge_cache_negative_days (cache : Path) (days : Z) (w : world) :
  (days < 0)%Z →
  no_overflow days →
  let cutoff := cutoff_of (clock w) days in
  (cutoff == clock w + inject_Z (Z.abs days * 86400))%Q
  ∧ (clock w < cutoff)%Q
  ∧ (∀ rel es n e,
       rel = "audio" ∨ rel = "transcripts" →
       fs w !! (cache // rel) = Some (Directory es) →
       es !! n = Some e →
       kind e = Regular →
       (st_mtime e <= clock w)%Q →
       stat_fails e = false → unlink_fails e = false →
       listing_error (fs w) (cache // "audio") = None →
       lookup_entry (purge_cache cache days w).2 (child (cache // rel) n) = None)
  ∧ (∀ E argv args,
       parse_args argv = Ok args → purge_cache_days args = days →
       fs (main E argv w).2 = fs w).
Proof.
  intros Hd _ cutoff.
  destruct (cutoff_of_negative (clock w) days Hd) as [Heq Hlt].
  split; [exact Heq|]. split; [exact Hlt|]. split.
  - intros rel es n e Hrel Hdir He Hk Hm Hs Hu Ha.
    assert (Hc : cache // rel = child cache rel) by by destruct Hrel as [-> | ->].
    rewrite Hc in Hdir |- *.
    destruct (purge_cache_entry cache days w rel es n e Hrel Hdir He)
      as [_ Hdrop].
    apply Hdrop; [exact Ha|]. apply unlinked_true_iff.
    repeat split; try done. by apply (Qle_lt_trans _ (clock w)).
  - intros E argv args Hp <-. by apply (main_negative_days_fs E argv args).
Qed.

Lemma purge_cache_negative_days_witness :
  let w' := (purge_cache Scenario.cache (-1) Scenario.healthy).2 in
  (Scenario.now < cutoff_of Scenario.now (-1))%Q
  ∧ lookup_entry w' (Scenario.cache // "audio" // "talk.wav") = None
  ∧ lookup_entry w' (Scenario.cache // "transcripts" // "new.json") = None.
Proof.
  destruct (purge_cache_negative_days Scenario.cache (-1) Scenario.healthy)
    as (_ & Hlt & Hgone & _); [lia|by vm_compute|].
  split; [exact Hlt|]. split.
  - apply (Hgone "audio" {[ "talk.wav" := Scenario.old_file ]} "talk.wav"
             Scenario.old_file);
      first [reflexivity | by left | discriminate].
  - apply (Hgone "transcripts"
             {[ "talk.json" := Scenario.old_file; "new.json" := Scenario.fresh_file ]}
             "new.json" Scenario.fresh_file);
      first [reflexivity | by right | discriminate].
Defined.

(** * Further properties of the code *)

(** ** The purge, entry by entry *)

(** The entry at any path after the purge: the entry before it, unless
    the purge went through ([audio] could be listed), the path lies
    directly in [audio] or [transcripts], and the entry is [unlinked]. *)
Lemma lookup_entry_purge_cache cache days w path :
  let cutoff := cutoff_of (clock w) days in
  lookup_entry (purge_cache cache days w).2 path
  = lookup_entry w path ≫= λ e,
      match listing_error (fs w) (child cache "audio") with
      | Some _ => Some e
      | None =>
          if bool_decide (parent path = child cache "audio"
                          ∨ parent path = child cache "transcripts")
             && unlinked cutoff e
          then None else Some e
      end.
Proof.
  intros cutoff.
  destruct (listing_error (fs w) (child cache "audio")) as [c|] eqn:Ha.
  - rewrite (purge_cache_audio_listing_error cache days w c Ha). simpl.
    by destruct (lookup_entry w path).
  - destruct (purge_cache_spec cache days w Ha) as (w' & -> & Hfs & _).
    fold cutoff in Hfs. simpl. unfold lookup_entry.
    rewrite Hfs, !purged_dir_lookup.
    pose proof (audio_ne_transcripts cache) as Hne.
    destruct (decide (child cache "transcripts" = parent path)) as [Ht|Ht].
    + rewrite <- Ht. rewrite decide_False by done.
      rewrite bool_decide_eq_true_2 by by right.
      destruct (fs w !! child cache "transcripts") as [[es| | |]|]; try done.
      rewrite survivors_lookup. by destruct (es !! name path).
    + destruct (decide (child cache "audio" = parent path)) as [Hp|Hp].
      * rewrite <- Hp. rewrite bool_decide_eq_true_2 by by left.
        destruct (fs w !! child cache "audio") as [[es| | |]|]; try done.
        rewrite survivors_lookup. by destruct (es !! name path).
      * rewrite bool_decide_eq_false_2 by (intros [?|?]; congruence).
        destruct (fs w !! parent path) as [[es| | |]|]; try done.
        by destruct (es !! name path).
Qed.

Lemma unlinked_monotone c1 c2 e :
  (c1 <= c2)%Q → unlinked c1 e = true → unlinked c2 e = true.
Proof.
  intros Hc. rewrite !unlinked_true_iff. intros (? & ? & Hlt & ?).
  repeat split; try done. by apply (Qlt_le_trans _ c1).
Qed.

Lemma cutoff_of_monotone now d1 d2 :
  (d1 ≤ d2)%Z → (cutoff_of now d2 <= cutoff_of now d1)%Q.
Proof.
  intros Hd. unfold cutoff_of.
  assert (inject_Z (d1 * 86400) <= inject_Z (d2 * 86400))%Q
    by (rewrite <- Zle_Qle; lia).
  lra.
Qed.

(** X1. [purge_cache] touches nothing but [cache/audio] and
    [cache/transcripts]: every other directory of the filesystem is as it
    was, whether the purge returns or raises, and so are the clock and the
    calls made. *)
Theorem purge_cache_frame (cache : Path) (days : Z) (w : world) (d : Path) :
  d ≠ cache // "audio" → d ≠ cache // "transcripts" →
  let w' := (purge_cache cache days w).2 in
  fs w' !! d = fs w !! d ∧ clock w' = clock w ∧ calls w' = calls w.
Proof.
  intros Ha Ht w'. subst w'.
  change (cache // "audio") with (child cache "audio") in Ha.
  change (cache // "transcripts") with (child cache "transcripts") in Ht.
  destruct (listing_error (fs w) (child cache "audio")) as [c|] eqn:Hn.
  - by rewrite (purge_cache_audio_listing_error cache days w c Hn).
  - destruct (purge_cache_spec cache days w Hn) as (w' & -> & Hfs & Hck & Hcl & _).
    simpl. split; [|done].
    rewrite Hfs, !purged_dir_lookup. by rewrite !decide_False.
Qed.

Lemma purge_cache_frame_witness :
  fs (purge_cache Scenario.cache 7 Scenario.mixed).2
    !! (Scenario.cache // "thumbnails")
  = Some (Directory {[ "talk.png" := Scenario.old_file ]}).
Proof.
  destruct (purge_cache_frame Scenario.cache 7 Scenario.mixed
              (Scenario.cache // "thumbnails")) as (H & _ & _);
    [discriminate | discriminate |].
  rewrite H. reflexivity.
Defined.

(** X2. [purge_cache] only removes entries: whatever entry is found at a
    path after it was there before it, unchanged; it creates nothing and
    modifies nothing. *)
Theorem purge_cache_only_removes
    (cache : Path) (days : Z) (w : world) (path : Path) (e : dirent) :
  lookup_entry (purge_cache cache days w).2 path = Some e →
  lookup_entry w path = Some e.
Proof.
  rewrite lookup_entry_purge_cache.
  destruct (lookup_entry w path) as [e0|]; simpl; [|done].
  destruct (listing_error _ _); [done|]. by destruct (_ && _).
Qed.

Lemma purge_cache_only_removes_witness :
  lookup_entry Scenario.mixed (Scenario.cache // "transcripts" // "new.json")
  = Some Scenario.fresh_file.
Proof.
  apply (purge_cache_only_removes Scenario.cache 7). reflexivity.
Defined.



(** X4. A longer retention window never deletes more: an entry that is
    still there after a purge with [d1] days, where [d1 * 86_400] still
    converts to a float, is still there after a purge of the same world
    with any [d2 >= d1] days. *)
Theorem purge_cache_longer_window_keeps_more
    (cache : Path) (d1 d2 : Z) (w : world) (path : Path) (e : dirent) :
  no_overflow d1 →
  (d1 ≤ d2)%Z →
  lookup_entry (purge_cache cache d1 w).2 path = Some e →
  lookup_entry (purge_cache cache d2 w).2 path = Some e.
Proof.
  intros _ Hd. rewrite !lookup_entry_purge_cache.
  destruct (lookup_entry w path) as [e0|]; simpl; [|done].
  destruct (listing_error _ _); [done|].
  destruct (bool_decide _); simpl; [|done].
  destruct (unlinked (cutoff_of (clock w) d2) e0) eqn:H2;
    [|by destruct (unlinked (cutoff_of (clock w) d1) e0)].
  by rewrite (unlinked_monotone _ _ e0 (cutoff_of_monotone (clock w) d1 d2 Hd) H2).
Qed.

Lemma purge_cache_longer_window_keeps_more_witness :
  lookup_entry (purge_cache Scenario.cache 30 Scenario.mixed).2
    (Scenario.cache // "transcripts" // "new.json")
  = Some Scenario.fresh_file.
Proof.
  apply (purge_cache_longer_window_keeps_more Scenario.cache 7 30);
    [by vm_compute | lia | reflexivity].
Defined.

(** ** The purge, directory by directory *)

Lemma survivors_idempotent cutoff es :
  survivors cutoff (survivors cutoff es) = survivors cutoff es.
Proof.
  apply map_eq. intros n. rewrite !survivors_lookup.
  destruct (es !! n) as [e|]; simpl; [|done].
  destruct (unlinked cutoff e) eqn:Hu; simpl; [done|]. by rewrite Hu.
Qed.

(** The node a directory becomes in its loop. *)
Lemma purged_both_lookup cutoff cache f d :
  purged_dir cutoff (child cache "transcripts")
    (purged_dir cutoff (child cache "audio") f) !! d
  = if bool_decide (d = child cache "audio" ∨ d = child cache "transcripts")
    then f !! d ≫= λ nd,
           Some match nd with
                | Directory es => Directory (survivors cutoff es)
                | _ => nd
                end
    else f !! d.
Proof.
  pose proof (audio_ne_transcripts cache) as Hne.
  rewrite !purged_dir_lookup.
  destruct (decide (child cache "transcripts" = d)) as [<-|Ht].
  - rewrite decide_False by done. rewrite bool_decide_eq_true_2 by by right.
    by destruct (f !! child cache "transcripts") as [[es| | |]|].
  - destruct (decide (child cache "audio" = d)) as [<-|Ha].
    + rewrite bool_decide_eq_true_2 by by left.
      by destruct (f !! child cache "audio") as [[es| | |]|].
    + by rewrite bool_decide_eq_false_2 by (intros [?|?]; congruence).
Qed.

Lemma purged_both_idempotent cutoff cache f :
  let P g := purged_dir cutoff (child cache "transcripts")
               (purged_dir cutoff (child cache "audio") g) in
  P (P f) = P f.
Proof.
  intros P. apply map_eq. intros d. subst P. cbv beta.
  rewrite (purged_both_lookup cutoff cache (purged_dir _ _ (purged_dir _ _ f))).
  rewrite purged_both_lookup.
  case_bool_decide; [|done].
  destruct (f !! d) as [[es| | |]|]; simpl; try done.
  by rewrite survivors_idempotent.
Qed.

Lemma purged_both_listing_error cutoff cache f d :
  listing_error
    (purged_dir cutoff (child cache "transcripts")
       (purged_dir cutoff (child cache "audio") f)) d
  = listing_error f d.
Proof.
  unfold listing_error. rewrite purged_both_lookup.
  case_bool_decide; [|done]. by destruct (f !! d) as [[es| | |]|].
Qed.

(** X5. Purging is idempotent: a second [purge_cache] with the same
    window, at the same clock, leaves the directories as the first left
    them. *)
Theorem purge_cache_idempotent (cache : Path) (days : Z) (w : world) :
  fs (purge_cache cache days (purge_cache cache days w).2).2
  = fs (purge_cache cache days w).2.
Proof.
  destruct (listing_error (fs w) (child cache "audio")) as [c|] eqn:Ha.
  - rewrite (purge_cache_audio_listing_error cache days w c Ha). simpl.
    by rewrite (purge_cache_audio_listing_error cache days w c Ha).
  - destruct (purge_cache_spec cache days w Ha) as (w1 & -> & Hfs1 & Hck1 & _).
    simpl.
    assert (Ha1 : listing_error (fs w1) (child cache "audio") = None)
      by by rewrite Hfs1, purged_both_listing_error.
    destruct (purge_cache_spec cache days w1 Ha1) as (w2 & -> & Hfs2 & _).
    simpl. rewrite Hfs2, Hck1, Hfs1.
    apply (purged_both_idempotent (cutoff_of (clock w) days) cache (fs w)).
Qed.

(** X6. [purge_cache] neither creates nor removes a directory, and does
    not change what is a directory: a path is absent after it exactly when
    it was absent before, a non-directory exactly when it was one; the
    directory it empties stays, empty. *)
Theorem purge_cache_preserves_directories
    (cache : Path) (days : Z) (w : world) (d : Path) :
  let w' := (purge_cache cache days w).2 in
  (fs w' !! d = None ↔ fs w !! d = None)
  ∧ (fs w' !! d = Some NotADirectory ↔ fs w !! d = Some NotADirectory)
  ∧ (∀ es', fs w' !! d = Some (Directory es') →
       ∃ es, fs w !! d = Some (Directory es) ∧ es' ⊆ es).
Proof.
  intros w'. subst w'.
  destruct (listing_error (fs w) (child cache "audio")) as [c|] eqn:Ha.
  - rewrite (purge_cache_audio_listing_error cache days w c Ha). simpl.
    repeat split; try done. intros es' H. by exists es'.
  - destruct (purge_cache_spec cache days w Ha) as (w1 & -> & Hfs1 & _).
    simpl. rewrite Hfs1, purged_both_lookup.
    case_bool_decide.
    + destruct (fs w !! d) as [[es| | |]|]; simpl; repeat split; try done.
      intros es' [= <-]. exists es. split; [done|]. apply map_filter_subseteq.
    + repeat split; try done. intros es' H'. by exists es'.
Qed.

(** X7. Best effort, entry by entry: for a window [days >= 0] that
    reaches back no further than the clock's own reading (so that the
    binary64 cutoff is exact), when [cache/audio] and [cache/transcripts]
    are each absent or a directory that can be listed, [purge_cache]
    returns normally whatever fails on single entries, and its log grows
    by exactly the entries of the two directories on which the [try] body
    raises: those whose [stat] fails and the old regular files whose
    [unlink] fails. *)
Theorem purge_cache_best_effort (cache : Path) (days : Z) (w : world) :
  exact_window (clock w) days →
  listing_error (fs w) (cache // "audio") = None →
  listing_error (fs w) (cache // "transcripts") = None →
  let cutoff := cutoff_of (clock w) days in
  let out := purge_cache cache days w in
  out.1 = Ok tt
  ∧ ∀ p, p ∈ logged out.2 ↔
         p ∈ logged w
         ∨ ∃ d es n e,
             (d = cache // "audio" ∨ d = cache // "transcripts")
             ∧ fs w !! d = Some (Directory es) ∧ p = child d n
             ∧ es !! n = Some e ∧ raises cutoff e = true.
Proof.
  intros _ Ha Ht cutoff out. subst out.
  change (cache // "audio") with (child cache "audio") in *.
  change (cache // "transcripts") with (child cache "transcripts") in *.
  destruct (purge_cache_spec cache days w Ha) as (w' & -> & _ & _ & _ & Hlog).
  simpl. by rewrite Ht.
Qed.

Lemma purge_cache_best_effort_witness :
  let out := purge_cache Scenario.cache 7 Scenario.mixed in
  out.1 = Ok tt
  ∧ Scenario.cache // "transcripts" // "dark.json" ∈ logged out.2.
Proof.
  destruct (purge_cache_best_effort Scenario.cache 7 Scenario.mixed)
    as [Hok Hlog]; [by vm_compute | reflexivity | reflexivity |].
  split; [exact Hok|].
  apply Hlog. right.
  exists (Scenario.cache // "transcripts"),
    {[ "talk.json" := Scenario.old_file; "new.json" := Scenario.fresh_file;
       "held.json" := Scenario.locked_file; "archive" := Scenario.archive_dir;
       "edge.json" := Scenario.edge_file;
       "dark.json" := Scenario.unreadable_file ]},
    "dark.json", Scenario.unreadable_file.
  repeat split; first [reflexivity | by right].
Defined.

(** X8. With neither [cache/audio] nor [cache/transcripts] there (a fresh
    installation), [purge_cache], given a window such that
    [days * 86_400] still converts to a float, returns with the world
    exactly as it was: nothing is created, nothing logged. *)
Theorem purge_cache_absent_subdirectories (cache : Path) (days : Z) (w : world) :
  no_overflow days →
  fs w !! (cache // "audio") = None →
  fs w !! (cache // "transcripts") = None →
  purge_cache cache days w = (Ok tt, w).
Proof.
  intros _ Ha Ht.
  unfold purge_cache, bind at 1, time_time. simpl for_each.
  unfold bind at 1, purge_cache_dir at 1, bind at 1, path_exists. rewrite Ha.
  simpl. unfold bind at 1, purge_cache_dir at 1, bind at 1, path_exists.
  by rewrite Ht.
Qed.

Lemma purge_cache_absent_subdirectories_witness :
  purge_cache Scenario.cache 7 Scenario.fresh_install
  = (Ok tt, Scenario.fresh_install).
Proof.
  apply purge_cache_absent_subdirectories; first [reflexivity | by vm_compute].
Defined.

(** ** Startup, with the purge *)

Lemma launch_server_with_purge E h p days w paths :
  resolve_paths E (module_file E) = Ok paths →
  let out := purge_cache (cache_dir paths) days w in
  launch_server E h p (Some days) w
  = match out.1 with
    | Ok _ =>
        (Ok tt,
         mkWorld (fs out.2) (clock out.2) (logged out.2)
           (calls out.2 ++ [RegisterTools (tools_dir paths);
                            RegisterPromptsFromMarkdown (prompts_dir paths);
                            RegisterPrompts (prompts_dir paths);
                            Run "http" h p]))
    | Raise e => (Raise e, out.2)
    end.
Proof.
  intros Hp out. subst out. unfold launch_server, bind at 1, lift. rewrite Hp.
  unfold bind at 1.
  destruct (purge_cache (cache_dir paths) days w) as [[[]|e] w']; simpl; [|done].
  unfold attach_everything, bind, external. simpl.
  by rewrite <- !app_assoc.
Qed.

Lemma purge_cache_outcome cache days w :
  (purge_cache cache days w).1
  = match listing_error (fs w) (child cache "audio") with
    | Some c => Raise (OSError c)
    | None =>
        match listing_error (fs w) (child cache "transcripts") with
        | Some c => Raise (OSError c)
        | None => Ok tt
        end
    end
  ∧ calls (purge_cache cache days w).2 = calls w
  ∧ clock (purge_cache cache days w).2 = clock w.
Proof.
  destruct (listing_error (fs w) (child cache "audio")) as [c|] eqn:Ha.
  - by rewrite (purge_cache_audio_listing_error cache days w c Ha).
  - destruct (purge_cache_spec cache days w Ha) as (w' & -> & _ & Hck & Hcl & _).
    done.
Qed.

(** X9. [launch_server] purges before it registers anything; the window
    is taken such that [days * 86_400] converts to a float. When the purge
    raises, the same exception ends the startup: nothing is registered and
    the listener is not started; so it is, with the [OSError] of the
    listing, when [audio] under the resolved cache root is there and
    cannot be listed. When the purge returns, the startup returns with the
    directories as the purge left them and exactly four calls made, in
    order: tools, markdown prompts, prompt functions, then the listener on
    the given host and port. *)
Theorem launch_server_purge_then_start
    (E : os_env) (h : string) (p days : Z) (w : world) (paths : ServerPaths) :
  resolve_paths E (module_file E) = Ok paths →
  no_overflow days →
  let cache := cache_dir paths in
  let out := purge_cache cache days w in
  (∀ e, out.1 = Raise e →
     launch_server E h p (Some days) w = (Raise e, out.2)
     ∧ calls out.2 = calls w)
  ∧ (out.1 = Ok tt →
     launch_server E h p (Some days) w
     = (Ok tt,
        mkWorld (fs out.2) (clock w) (logged out.2)
          (calls w ++ [RegisterTools (tools_dir paths);
                       RegisterPromptsFromMarkdown (prompts_dir paths);
                       RegisterPrompts (prompts_dir paths);
                       Run "http" h p])))
  ∧ (∀ c, listing_error (fs w) (cache // "audio") = Some c →
       launch_server E h p (Some days) w = (Raise (OSError c), w)).
Proof.
  intros Hp _ cache out.
  rewrite (launch_server_with_purge E h p days w paths Hp). fold cache out.
  destruct (purge_cache_outcome cache days w) as (_ & Hcl & Hck).
  fold out in Hcl, Hck.
  split; [|split].
  - intros e He. by rewrite He.
  - intros Hok. by rewrite Hok, Hcl, Hck.
  - intros c Ha. subst out.
    change (cache // "audio") with (child cache "audio") in Ha.
    by rewrite (purge_cache_audio_listing_error cache days w c Ha).
Qed.

Lemma launch_server_purge_then_start_witness :
  (let out := launch_server Scenario.env_unset "127.0.0.1" 8085 (Some 7)
                Scenario.healthy in
   out.1 = Ok tt
   ∧ lookup_entry out.2 (Scenario.cache // "transcripts" // "talk.json") = None
   ∧ calls out.2
     = [RegisterTools (of_string "/srv/app/src/modules/tools");
        RegisterPromptsFromMarkdown (of_string "/srv/app/src/modules/prompts");
        RegisterPrompts (of_string "/srv/app/src/modules/prompts");
        Run "http" "127.0.0.1" 8085])
  ∧ launch_server Scenario.env_unset "127.0.0.1" 8085 (Some 7)
      Scenario.audio_unreadable
    = (Raise (OSError EACCES), Scenario.audio_unreadable).
Proof.
  split.
  - destruct (launch_server_purge_then_start Scenario.env_unset "127.0.0.1"
                8085 7 Scenario.healthy _ eq_refl) as (_ & H & _);
      [by vm_compute|].
    cbv zeta. rewrite (H eq_refl). simpl. repeat split; reflexivity.
  - destruct (launch_server_purge_then_start Scenario.env_unset "127.0.0.1"
                8085 7 Scenario.audio_unreadable _ eq_refl) as (_ & _ & H);
      [by vm_compute|].
    apply (H EACCES). reflexivity.
Defined.
(** ** The server's command line *)

Lemma port_type_Ok_range value n :
  port_type value = Ok n → (1 ≤ n ≤ 65535)%Z.
Proof.
  destruct (PyInt.int value) as [m|e] eqn:Hi.
  - rewrite (port_type_of_int _ _ Hi).
    destruct ((1 <=? m)%Z && (m <=? 65535)%Z) eqn:Hr; [|done].
    intros [= <-]. apply andb_true_iff in Hr. lia.
  - pose proof (int_raises_only_ValueError _ _ Hi) as ->.
    by rewrite (port_type_not_int _ Hi).
Qed.

Lemma port_type_raises value e :
  port_type value = Raise e → ∃ msg, e = ArgumentTypeError msg.
Proof.
  destruct (PyInt.int value) as [m|e0] eqn:Hi.
  - rewrite (port_type_of_int _ _ Hi).
    destruct (_ && _); [done|]. intros [= <-]. by eexists.
  - pose proof (int_raises_only_ValueError _ _ Hi) as ->.
    rewrite (port_type_not_int _ Hi). intros [= <-]. by eexists.
Qed.

Lemma convert_port_type value :
  convert (port_type value)
  = match port_type value with
    | Ok n => Ok n
    | Raise _ => Raise (SystemExit 2)
    end.
Proof.
  destruct (port_type value) as [n|e] eqn:Hp; [done|].
  by destruct (port_type_raises _ _ Hp) as [msg ->].
Qed.

Lemma convert_int value :
  convert (PyInt.int value)
  = match PyInt.int value with
    | Ok n => Ok n
    | Raise _ => Raise (SystemExit 2)
    end.
Proof.
  destruct (PyInt.int value) as [n|e] eqn:Hi; [done|].
  by rewrite (int_raises_only_ValueError _ _ Hi).
Qed.

Lemma parse_into_app argv1 : ∀ argv2 ns,
  parse_into ns (argv1 ++ argv2)
  = let* ns' := parse_into ns argv1 in parse_into ns' argv2.
Proof.
  induction argv1 as [|[v|v|v] argv1 IH]; intros argv2 ns; simpl; [done|..].
  - apply IH.
  - destruct (convert (port_type v)); simpl; [apply IH|done].
  - destruct (convert (PyInt.int v)); simpl; [apply IH|done].
Qed.

Lemma parse_into_port_in_range argv : ∀ ns args,
  (1 ≤ port ns ≤ 65535)%Z → parse_into ns argv = Ok args →
  (1 ≤ port args ≤ 65535)%Z.
Proof.
  induction argv as [|[v|v|v] argv IH]; intros ns args Hns; simpl.
  - by intros [= <-].
  - by apply IH.
  - rewrite convert_port_type.
    destruct (port_type v) as [n|e] eqn:Hp; simpl; [|done].
    apply IH. simpl. by apply (port_type_Ok_range v).
  - destruct (convert (PyInt.int v)); simpl; [|done]. by apply IH.
Qed.

(** X10. Whatever the command line, the namespace [parse_args] returns
    carries a port in [1, 65535]: the default, or a value [port_type] let
    through. *)
Theorem parse_args_port_in_range (argv : list cli_arg) (args : Namespace) :
  parse_args argv = Ok args → (1 ≤ port args ≤ 65535)%Z.
Proof. apply parse_into_port_in_range. simpl. lia. Qed.

Lemma parse_args_port_in_range_witness :
  (1 ≤ port (mkNamespace "localhost" 443 7) ≤ 65535)%Z.
Proof.
  apply (parse_args_port_in_range [ArgPort "80"; ArgHost "localhost"; ArgPort " 443 "]).
  reflexivity.
Defined.

Lemma parse_into_raises argv : ∀ ns e,
  parse_into ns argv = Raise e → e = SystemExit 2.
Proof.
  induction argv as [|[v|v|v] argv IH]; intros ns e; simpl; [done|..].
  - apply IH.
  - rewrite convert_port_type. destruct (port_type v); simpl.
    + apply IH.
    + by intros [= <-].
  - rewrite convert_int. destruct (PyInt.int v); simpl.
    + apply IH.
    + by intros [= <-].
Qed.

Lemma parse_into_fails_iff argv : ∀ ns,
  (∃ e, parse_into ns argv = Raise e) ↔
  ∃ a, a ∈ argv
       ∧ ((∃ v e, a = ArgPort v ∧ port_type v = Raise e)
          ∨ (∃ v e, a = ArgPurgeCacheDays v ∧ PyInt.int v = Raise e)).
Proof.
  induction argv as [|a argv IH]; intros ns.
  - simpl. split; [by intros [e ?]|]. intros (a & Hin & _).
    by apply not_elem_of_nil in Hin.
  - assert (Hrest : ∀ ns',
      (∃ e, parse_into ns' argv = Raise e) →
      ∃ a0, a0 ∈ a :: argv
            ∧ ((∃ v e, a0 = ArgPort v ∧ port_type v = Raise e)
               ∨ (∃ v e, a0 = ArgPurgeCacheDays v ∧ PyInt.int v = Raise e))).
    { intros ns' (a0 & Hin & Hbad)%IH. exists a0. split; [by right|done]. }
    split.
    + destruct a as [v|v|v]; simpl.
      * apply Hrest.
      * rewrite convert_port_type.
        destruct (port_type v) as [n|e0] eqn:Hp; simpl; [apply Hrest|].
        intros _. exists (ArgPort v). split; [by left|]. left. by exists v, e0.
      * rewrite convert_int.
        destruct (PyInt.int v) as [n|e0] eqn:Hi; simpl; [apply Hrest|].
        intros _. exists (ArgPurgeCacheDays v). split; [by left|].
        right. by exists v, e0.
    + intros (a0 & [->|Hin]%elem_of_cons & Hbad).
      * destruct Hbad as [(v & e & -> & Hp)|(v & e & -> & Hi)]; simpl.
        -- rewrite convert_port_type, Hp. by eexists.
        -- rewrite convert_int, Hi. by eexists.
      * assert (Hlater : ∀ ns', ∃ e, parse_into ns' argv = Raise e).
        { intros ns'. apply IH. by exists a0. }
        destruct a as [v|v|v]; simpl.
        -- apply Hlater.
        -- rewrite convert_port_type. destruct (port_type v); simpl;
             [apply Hlater|by eexists].
        -- rewrite convert_int. destruct (PyInt.int v); simpl;
             [apply Hlater|by eexists].
Qed.

(** X11. A value that [port_type] or [int] rejects, anywhere on the
    command line (even when a later occurrence of the option is fine), is
    a usage error: [parse_args] exits with status 2, and [main] then ends
    before any path is resolved, any file touched or any call made. *)
Theorem main_usage_error
    (E : os_env) (argv : list cli_arg) (w : world) (a : cli_arg) :
  a ∈ argv →
  PyInt.ascii_text (cli_value a) →
  (∃ v e, a = ArgPort v ∧ port_type v = Raise e)
  ∨ (∃ v e, a = ArgPurgeCacheDays v ∧ PyInt.int v = Raise e) →
  parse_args argv = Raise (SystemExit 2)
  ∧ main E argv w = (Raise (SystemExit 2), w).
Proof.
  intros Hin _ Hbad.
  assert (He : parse_args argv = Raise (SystemExit 2)).
  { destruct (proj2 (parse_into_fails_iff argv defaults)) as [e He];
      [by exists a|].
    unfold parse_args. by rewrite He, (parse_into_raises _ _ _ He). }
  split; [exact He|]. unfold main, bind, lift. by rewrite He.
Qed.

Lemma main_usage_error_witness :
  main Scenario.env_unset
    [ArgPort "http"; ArgHost "localhost"; ArgPort "8085"] Scenario.healthy
  = (Raise (SystemExit 2), Scenario.healthy).
Proof.
  apply (main_usage_error Scenario.env_unset
           [ArgPort "http"; ArgHost "localhost"; ArgPort "8085"]
           Scenario.healthy (ArgPort "http")).
  - by left.
  - intros c Hc. simpl in Hc.
    repeat (apply elem_of_cons in Hc as [->|Hc]; [vm_compute; lia|]).
    by apply not_elem_of_nil in Hc.
  - left. by exists "http", (ArgumentTypeError (NotAnInteger "http")).
Defined.

(** X12. The last occurrence of an option decides: appending an option
    to a command line that parses replaces that field of the namespace and
    leaves the other two as they were parsed. The values are those
    [argparse] takes as values: none that starts with a hyphen, unless
    digits only follow it. *)
Theorem parse_args_last_wins (argv : list cli_arg) (args : Namespace) :
  Forall (λ a, plain_value (cli_value a) = true) argv →
  parse_args argv = Ok args →
  (∀ h, plain_value h = true →
        parse_args (argv ++ [ArgHost h])
        = Ok (mkNamespace h (port args) (purge_cache_days args)))
  ∧ (∀ v n, plain_value v = true → port_type v = Ok n →
        parse_args (argv ++ [ArgPort v])
        = Ok (mkNamespace (host args) n (purge_cache_days args)))
  ∧ (∀ v d, plain_value v = true → PyInt.int v = Ok d →
        parse_args (argv ++ [ArgPurgeCacheDays v])
        = Ok (mkNamespace (host args) (port args) d)).
Proof.
  intros _ Hp. unfold parse_args in *. repeat split.
  - intros h _. by rewrite parse_into_app, Hp.
  - intros v n _ Hv. rewrite parse_into_app, Hp. simpl. by rewrite Hv.
  - intros v d _ Hv. rewrite parse_into_app, Hp. simpl. by rewrite Hv.
Qed.

Lemma parse_args_last_wins_witness :
  parse_args [ArgPurgeCacheDays "30"; ArgHost "localhost"; ArgPurgeCacheDays "-1"]
  = Ok (mkNamespace "localhost" 8085 (-1)).
Proof.
  apply (parse_args_last_wins [ArgPurgeCacheDays "30"; ArgHost "localhost"]
           (mkNamespace "localhost" 8085 30));
    first [reflexivity | by repeat constructor].
Defined.

Lemma parse_into_keeps argv : ∀ ns args,
  parse_into ns argv = Ok args →
  ((∀ v, ArgHost v ∉ argv) → host args = host ns)
  ∧ ((∀ v, ArgPort v ∉ argv) → port args = port ns)
  ∧ ((∀ v, ArgPurgeCacheDays v ∉ argv) →
       purge_cache_days args = purge_cache_days ns).
Proof.
  induction argv as [|a argv IH]; intros ns args.
  - simpl. by intros [= <-].
  - assert (Hstep : ∀ ns', parse_into ns' argv = Ok args →
      ((∀ v, ArgHost v ∉ a :: argv) → host args = host ns')
      ∧ ((∀ v, ArgPort v ∉ a :: argv) → port args = port ns')
      ∧ ((∀ v, ArgPurgeCacheDays v ∉ a :: argv) →
           purge_cache_days args = purge_cache_days ns')).
    { intros ns' (Hh & Hp & Hd)%IH.
      repeat split; intros Hno; [apply Hh|apply Hp|apply Hd];
        intros v Hin; apply (Hno v); by right. }
    destruct a as [v|v|v]; simpl.
    + intros (Hh & Hp & Hd)%Hstep. simpl in *. repeat split; try done.
      intros Hno. exfalso. apply (Hno v). by left.
    + destruct (convert (port_type v)) as [n|e]; simpl; [|done].
      intros (Hh & Hp & Hd)%Hstep. simpl in *. repeat split; try done.
      intros Hno. exfalso. apply (Hno v). by left.
    + destruct (convert (PyInt.int v)) as [n|e]; simpl; [|done].
      intros (Hh & Hp & Hd)%Hstep. simpl in *. repeat split; try done.
      intros Hno. exfalso. apply (Hno v). by left.
Qed.

(** X13. An option that is not on the command line keeps its default:
    host [127.0.0.1], port 8085, a purge window of 7 days. *)
Theorem parse_args_defaults (argv : list cli_arg) (args : Namespace) :
  parse_args argv = Ok args →
  ((∀ v, ArgHost v ∉ argv) → host args = "127.0.0.1")
  ∧ ((∀ v, ArgPort v ∉ argv) → port args = 8085)
  ∧ ((∀ v, ArgPurgeCacheDays v ∉ argv) → purge_cache_days args = 7).
Proof. apply parse_into_keeps. Qed.

Lemma parse_args_defaults_witness :
  port (mkNamespace "0.0.0.0" 8085 7) = 8085
  ∧ purge_cache_days (mkNamespace "0.0.0.0" 8085 7) = 7.
Proof.
  destruct (parse_args_defaults [ArgHost "0.0.0.0"] (mkNamespace "0.0.0.0" 8085 7))
    as (_ & Hp & Hd); [reflexivity|].
  split; [apply Hp|apply Hd]; intros v Hin;
    apply list_elem_of_singleton in Hin; discriminate.
Defined.

(** X14. Zero is a window, not the switch: on a command line that parses
    to [--purge-cache-days >= 0], zero included, [main] runs [purge_cache]
    with that window on the resolved cache root; the directories after
    [main] are those after that purge. *)
Theorem main_purges_with_window
    (E : os_env) (argv : list cli_arg) (args : Namespace) (w : world)
    (paths : ServerPaths) :
  parse_args argv = Ok args →
  (0 ≤ purge_cache_days args)%Z →
  resolve_paths E (module_file E) = Ok paths →
  fs (main E argv w).2
  = fs (purge_cache (cache_dir paths) (purge_cache_days args) w).2.
Proof.
  intros Hp Hd Hr.
  rewrite (main_nonnegative_days E argv args w Hp Hd).
  rewrite (launch_server_with_purge E _ _ _ w paths Hr).
  by destruct (purge_cache _ _ w) as [[[]|e] w'].
Qed.

Lemma main_purges_with_window_witness :
  lookup_entry
    (main Scenario.env_unset [ArgPurgeCacheDays "0"] Scenario.healthy).2
    (Scenario.cache // "transcripts" // "new.json")
  = None.
Proof.
  unfold lookup_entry.
  rewrite (main_purges_with_window Scenario.env_unset [ArgPurgeCacheDays "0"]
             (mkNamespace "127.0.0.1" 8085 0) Scenario.healthy _
             eq_refl ltac:(simpl; lia) eq_refl).
  reflexivity.
Defined.

(** X18. What the debug stub does on [--test value] depends on the
    lower-cased value alone: it runs the client on [universal-client], the
    search test on [yt-search], returns without calling anything on
    [mcp_yt-server], and exits with the usage and status 2 on everything
    else; with no arguments it exits the same way. *)
Theorem debug_stub_outcomes (c : DebugStub.command_line) :
  DebugStub.debug_stub c
  = match c with
    | DebugStub.NoArguments => DebugStub.Exited 2 DebugStub.UsageAndError
    | DebugStub.TestOption value =>
        let test := DebugStub.str_lower value in
        if String.eqb test "universal-client" then DebugStub.Called DebugStub.ClientRun
        else if String.eqb test "yt-search" then DebugStub.Called DebugStub.SearchTest
        else if String.eqb test "mcp_yt-server" then DebugStub.Returned
        else DebugStub.Exited 2 DebugStub.UsageAndError
    end.
Proof.
  destruct c as [|value]; [reflexivity|].
  cbv zeta. unfold DebugStub.debug_stub, DebugStub.parse_args.
  set (test := DebugStub.str_lower value).
  destruct (String.eqb_spec test "universal-client") as [->|H1]; [reflexivity|].
  destruct (String.eqb_spec test "yt-search") as [->|H2]; [reflexivity|].
  destruct (String.eqb_spec test "mcp_yt-server") as [->|H3]; [reflexivity|].
  rewrite bool_decide_eq_false_2; [done|].
  rewrite elem_of_choices. intros [?|[?|?]]; congruence.
Qed.

(** X19. The stub's own [print_help(); sys.exit(1)] is never reached:
    with no arguments the parser has already exited with status 2, and no
    command line makes the stub exit with status 1. *)
Theorem debug_stub_exit_status
    (c : DebugStub.command_line) (status : Z) (out : DebugStub.printed) :
  DebugStub.debug_stub c = DebugStub.Exited status out →
  status ≠ 1 ∧ (c = DebugStub.NoArguments → status = 2).
Proof.
  destruct c as [|value]; [by intros [= <- <-]|].
  unfold DebugStub.debug_stub, DebugStub.parse_args.
  case_bool_decide; [|by intros [= <- <-]].
  simpl. by repeat destruct (String.eqb _ _).
Qed.

Lemma debug_stub_exit_status_witness : (2 ≠ 1 ∧ 2 = 2)%Z.
Proof.
  destruct (debug_stub_exit_status DebugStub.NoArguments 2
              DebugStub.UsageAndError eq_refl) as [H1 H2].
  split; [exact H1|exact (H2 eq_refl)].
Defined.

(** ** Numbers written in decimal *)

Section Decimal.

Import PyInt.

Implicit Types (u : Decimal.uint) (c : ascii) (cs : list ascii).

Lemma parse_digits_digit acc b c cs d :
  digit_val c = Some d →
  parse_digits acc b (c :: cs) = parse_digits (10 * acc + d) true cs.
Proof. intros H. simpl. by rewrite H. Qed.

Ltac read_digit :=
  first [ rewrite (parse_digits_digit _ _ "0"%char _ 0 eq_refl)
        | rewrite (parse_digits_digit _ _ "1"%char _ 1 eq_refl)
        | rewrite (parse_digits_digit _ _ "2"%char _ 2 eq_refl)
        | rewrite (parse_digits_digit _ _ "3"%char _ 3 eq_refl)
        | rewrite (parse_digits_digit _ _ "4"%char _ 4 eq_refl)
        | rewrite (parse_digits_digit _ _ "5"%char _ 5 eq_refl)
        | rewrite (parse_digits_digit _ _ "6"%char _ 6 eq_refl)
        | rewrite (parse_digits_digit _ _ "7"%char _ 7 eq_refl)
        | rewrite (parse_digits_digit _ _ "8"%char _ 8 eq_refl)
        | rewrite (parse_digits_digit _ _ "9"%char _ 9 eq_refl) ].

Lemma parse_digits_of_uint_acc u : ∀ acc,
  parse_digits (Z.pos acc) true (uint_chars u)
  = Some (Z.pos (Pos.of_uint_acc u acc)).
Proof.
  induction u as [|u IH|u IH|u IH|u IH|u IH|u IH|u IH|u IH|u IH|u IH];
    intros acc; [reflexivity|..];
    unfold uint_chars in *;
    simpl NilEmpty.string_of_uint; simpl list_ascii_of_string;
    read_digit; simpl Pos.of_uint_acc; rewrite <- IH; f_equal; lia.
Qed.

Lemma parse_digits_of_uint u : ∀ b,
  b = true ∨ u ≠ Decimal.Nil →
  parse_digits 0 b (uint_chars u) = Some (Z.of_N (Pos.of_uint u)).
Proof.
  induction u as [|u IH|u IH|u IH|u IH|u IH|u IH|u IH|u IH|u IH|u IH];
    intros b Hb; unfold uint_chars in *.
  - by destruct Hb as [->|?].
  - simpl NilEmpty.string_of_uint; simpl list_ascii_of_string.
    read_digit. simpl. apply IH. by left.
  - simpl NilEmpty.string_of_uint; simpl list_ascii_of_string.
    read_digit. exact (parse_digits_of_uint_acc u _).
  - simpl NilEmpty.string_of_uint; simpl list_ascii_of_string.
    read_digit. exact (parse_digits_of_uint_acc u _).
  - simpl NilEmpty.string_of_uint; simpl list_ascii_of_string.
    read_digit. exact (parse_digits_of_uint_acc u _).
  - simpl NilEmpty.string_of_uint; simpl list_ascii_of_string.
    read_digit. exact (parse_digits_of_uint_acc u _).
  - simpl NilEmpty.string_of_uint; simpl list_ascii_of_string.
    read_digit. exact (parse_digits_of_uint_acc u _).
  - simpl NilEmpty.string_of_uint; simpl list_ascii_of_string.
    read_digit. exact (parse_digits_of_uint_acc u _).
  - simpl NilEmpty.string_of_uint; simpl list_ascii_of_string.
    read_digit. exact (parse_digits_of_uint_acc u _).
  - simpl NilEmpty.string_of_uint; simpl list_ascii_of_string.
    read_digit. exact (parse_digits_of_uint_acc u _).
  - simpl NilEmpty.string_of_uint; simpl list_ascii_of_string.
    read_digit. exact (parse_digits_of_uint_acc u _).
Qed.

Lemma chars_decimal u : Forall decimal_char (uint_chars u).
Proof.
  induction u; unfold uint_chars in *;
    simpl NilEmpty.string_of_uint; simpl list_ascii_of_string;
    constructor; done.
Qed.

Lemma lstrip_id cs :
  match cs with c :: _ => is_space c = false | [] => True end → lstrip cs = cs.
Proof. destruct cs as [|c r]; [done|]. simpl. by intros ->. Qed.

Lemma strip_id cs : Forall (λ c, is_space c = false) cs → strip cs = cs.
Proof.
  intros H. unfold strip.
  rewrite (lstrip_id cs) by by destruct H.
  rewrite lstrip_id; [apply rev_involutive|].
  apply List.Forall_rev in H. by destruct H.
Qed.

Lemma unsigned_literal c cs :
  Ascii.eqb c "+"%char = false → Ascii.eqb c "-"%char = false →
  match c :: cs with
  | "+"%char :: r => (1%Z, r)
  | "-"%char :: r => ((-1)%Z, r)
  | _ => (1%Z, c :: cs)
  end = (1%Z, c :: cs).
Proof.
  intros E1%Ascii.eqb_neq E2%Ascii.eqb_neq.
  destruct c as [[] [] [] [] [] [] [] []]; done.
Qed.

Lemma count_digits_le cs : (count_digits cs ≤ length cs)%nat.
Proof. apply List.filter_length_le. Qed.

Lemma length_list_ascii_of_string s :
  length (list_ascii_of_string s) = String.length s.
Proof. induction s as [|c s IH]; simpl; [done|by rewrite IH]. Qed.

Lemma int_of_digits u :
  u ≠ Decimal.Nil →
  (String.length (NilEmpty.string_of_uint u) ≤ max_str_digits)%nat →
  int (NilEmpty.string_of_uint u) = Ok (Z.of_N (Pos.of_uint u)).
Proof.
  intros Hu Hlen. unfold int.
  rewrite <- length_list_ascii_of_string in Hlen.
  fold (uint_chars u) in Hlen.
  pose proof (chars_decimal u) as Hd.
  rewrite strip_id by (eapply Forall_impl; [exact Hd|]; by intros c [? _]).
  pose proof (parse_digits_of_uint u false (or_intror Hu)) as Hp.
  fold (uint_chars u).
  destruct (uint_chars u) as [|c r] eqn:Hcs.
  - by destruct u.
  - apply Forall_cons in Hd as [(_ & Hplus & Hminus) _].
    rewrite (unsigned_literal c r Hplus Hminus), Hp.
    pose proof (count_digits_le (c :: r)) as Hc.
    rewrite (proj2 (Nat.ltb_ge _ _)) by (etrans; [exact Hc|exact Hlen]).
    f_equal. lia.
Qed.

(** [int(str(n)) == n], for every integer that [str] writes within the
    limit on digits. *)
Lemma int_py_str n :
  (String.length (py_str n) ≤ max_str_digits)%nat → int (py_str n) = Ok n.
Proof.
  unfold py_str. destruct n as [|p|p]; [reflexivity|..]; simpl Z.to_int.
  - pose proof (Unsigned.to_uint_nonnil p) as Hn.
    assert (Hs : NilZero.string_of_int (Decimal.Pos (Pos.to_uint p))
                 = NilEmpty.string_of_uint (Pos.to_uint p))
      by (simpl; unfold NilZero.string_of_uint; by destruct (Pos.to_uint p)).
    rewrite Hs. intros Hlen. rewrite (int_of_digits _ Hn Hlen).
    by rewrite Unsigned.of_to.
  - pose proof (Unsigned.to_uint_nonnil p) as Hn.
    assert (Hs : NilZero.string_of_int (Decimal.Neg (Pos.to_uint p))
                 = String "-"%char (NilEmpty.string_of_uint (Pos.to_uint p)))
      by (simpl; unfold NilZero.string_of_uint; by destruct (Pos.to_uint p)).
    rewrite Hs. intros Hlen. unfold int. simpl list_ascii_of_string.
    fold (uint_chars (Pos.to_uint p)).
    pose proof (chars_decimal (Pos.to_uint p)) as Hd.
    rewrite strip_id.
    + rewrite (parse_digits_of_uint _ false (or_intror Hn)).
      pose proof (count_digits_le (uint_chars (Pos.to_uint p))) as Hc.
      unfold uint_chars in Hc at 2.
      rewrite length_list_ascii_of_string in Hc.
      simpl String.length in Hlen.
      rewrite (proj2 (Nat.ltb_ge _ _)) by lia.
      by rewrite Unsigned.of_to.
    + constructor; [done|]. eapply Forall_impl; [exact Hd|]. by intros c [? _].
Qed.

End Decimal.

(** X20. Numbers written in decimal are read back: for every integer
    [n] that [str] writes in no more than 4300 characters (the
    interpreter's limit on the digits of a literal), [port_type] on
    [str(n)] returns [n] when [n] is in [1, 65535] and raises the
    out-of-range error naming [n] otherwise; and
    [--purge-cache-days str(n)] parses to the window [n]. *)
Theorem port_type_reads_decimal (n : Z) :
  (String.length (py_str n) ≤ PyInt.max_str_digits)%nat →
  port_type (py_str n)
  = (if (1 <=? n)%Z && (n <=? 65535)%Z then Ok n
     else Raise (ArgumentTypeError (OutOfRange n)))
  ∧ parse_args [ArgPurgeCacheDays (py_str n)] = Ok (mkNamespace "127.0.0.1" 8085 n).
Proof.
  intros Hlen. split.
  - by apply port_type_of_int, int_py_str.
  - unfold parse_args. simpl. by rewrite int_py_str.
Qed.

Lemma port_type_reads_decimal_witness :
  port_type "70000" = Raise (ArgumentTypeError (OutOfRange 70000))
  ∧ parse_args [ArgPurgeCacheDays "-14"] = Ok (mkNamespace "127.0.0.1" 8085 (-14)).
Proof.
  split.
  - apply (port_type_reads_decimal 70000). apply Nat.leb_le. reflexivity.
  - apply (port_type_reads_decimal (-14)). apply Nat.leb_le. reflexivity.
Defined.



